(** * The Rust backend of lcm-gen (lcmgen/emit_rust.c)

    A shallow embedding of the Rust emitter of the LCM schema compiler and of
    its first generation (the older emit_rust.c), together with the meaning of
    the Rust code it emits: the fingerprint function, and the encode, decode
    and size routines of the [Message] implementation. *)

From Stdlib Require Import Ascii ZArith Lia.
From stdpp Require Import base list strings gmap.

Local Open Scope Z_scope.

(** ** C characters and strings

    A C string is the sequence of its characters before the terminating NUL;
    it is modelled as a [string].  [toupper] and [tolower] are those of the
    "C" locale. *)

Definition is_lower (c : ascii) : bool :=
  let n := N_of_ascii c in ((97 <=? n) && (n <=? 122))%N.

Definition is_upper (c : ascii) : bool :=
  let n := N_of_ascii c in ((65 <=? n) && (n <=? 90))%N.

Definition toupper (c : ascii) : ascii :=
  if is_lower c then ascii_of_N (N_of_ascii c - 32) else c.

Definition tolower (c : ascii) : ascii :=
  if is_upper c then ascii_of_N (N_of_ascii c + 32) else c.

Definition is_underscore (c : ascii) : bool := bool_decide (c = "_"%char).

(** ** The semantic model handed over by the parser (lcmgen.h) *)

Record lcm_typename_t := {
  lctypename : string;   (* fully qualified name, e.g. "com.foo.pose_t" *)
  package : string;
  shortname : string
}.

Inductive lcm_dimension_mode_t := LCM_CONST | LCM_VAR.

Record lcm_dimension_t := {
  mode : lcm_dimension_mode_t;
  size : string          (* a literal for LCM_CONST, a member name for LCM_VAR *)
}.

Record lcm_member_t := {
  type : lcm_typename_t;
  membername : string;
  dimensions : list lcm_dimension_t;   (* outermost first *)
  comment : option string
}.

(** [hash] is the base hash computed by the parser, an int64_t. *)
Record lcm_struct_t := {
  structname : lcm_typename_t;
  members : list lcm_member_t;
  hash : Z
}.

Global Instance lcm_dimension_mode_eq_dec : EqDecision lcm_dimension_mode_t.
Proof. solve_decision. Defined.

Global Instance lcm_typename_eq_dec : EqDecision lcm_typename_t.
Proof. solve_decision. Defined.

Global Instance lcm_dimension_eq_dec : EqDecision lcm_dimension_t.
Proof. solve_decision. Defined.

Global Instance lcm_member_eq_dec : EqDecision lcm_member_t.
Proof. solve_decision. Defined.

Global Instance lcm_struct_eq_dec : EqDecision lcm_struct_t.
Proof. solve_decision. Defined.

(** A constant of a struct ([lcm_constant_t]); its field names are those of
    a member, so the record has a name space of its own. *)
Module LcmConstant.

Record lcm_constant_t := {
  lctypename : string;   (* int8_t, int16_t, int32_t, int64_t, float or double *)
  membername : string;
  val_str : string;      (* the value as written in the schema *)
  comment : option string
}.

End LcmConstant.

(** A struct as [emit_rust] sees it: the fields of [lcm_struct_t] above,
    with those that only the struct definition and the constants read, the
    comment and the list of constants. *)
Module LcmStruct.

Record t := {
  fields : lcm_struct_t;   (* structname, members, hash *)
  comment : option string;
  constants : list LcmConstant.lcm_constant_t
}.

End LcmStruct.

Global Instance lcm_constant_eq_dec : EqDecision LcmConstant.lcm_constant_t.
Proof. solve_decision. Defined.

Global Instance lcm_struct_full_eq_dec : EqDecision LcmStruct.t.
Proof. solve_decision. Defined.

Definition sum_Z (l : list Z) : Z := foldr Z.add 0 l.

(** ** 64-bit unsigned arithmetic of the emitted Rust code *)

Definition u64_modulus : Z := 2 ^ 64.

Definition wrap_u64 (z : Z) : Z := z mod u64_modulus.

(** [a.wrapping_add(b)] on u64. *)
Definition wrapping_add (a b : Z) : Z := wrap_u64 (a + b).

(** [a << n] on u64 (0 <= n < 64): the bits shifted out are dropped. *)
Definition u64_shl (a n : Z) : Z := wrap_u64 (Z.shiftl a n).

(** [a >> n] on u64: a logical shift. *)
Definition u64_shr (a n : Z) : Z := Z.shiftr a n.

(** [a + b] on u64: the sum when it fits; an overflow panics in a debug
    build and wraps in a release build, so no value is given for it. *)
Definition u64_add (a b : Z) : option Z :=
  if decide (a + b < u64_modulus) then Some (a + b) else None.

(** ** 64-bit signed arithmetic, for the first generation's [i64] hash *)

Definition wrap_i64 (z : Z) : Z := (z + 2 ^ 63) mod 2 ^ 64 - 2 ^ 63.

Definition i64_shl (a n : Z) : Z := wrap_i64 (Z.shiftl a n).

(** [a >> n] on i64: an arithmetic shift. *)
Definition i64_shr (a n : Z) : Z := Z.shiftr a n.

Definition i64_add (a b : Z) : option Z :=
  if decide (- 2 ^ 63 <= a + b < 2 ^ 63) then Some (a + b) else None.

(** ** Identifier transforms of emit_rust.c *)

Module EmitRust.

(** [strip_underscore_t]: a copy of the name, cut two characters before its
    end when it is at least two characters long and ends in "_t". *)
Definition strip_underscore_t (name : string) : string :=
  let result := name in
  let len := String.length result in
  if (len <? 2)%nat then result
  else if bool_decide (String.get (len - 2) result = Some "_"%char)
          && bool_decide (String.get (len - 1) result = Some "t"%char)
       then String.substring 0 (len - 2) result
       else result.

(** The loop of [make_rust_type_name] ("Convert to camel case").  The read
    pointer [c] walks over the characters, the write pointer [result_char]
    never runs ahead of it, so every character is read before the position it
    sits at is overwritten; the function returns what was written. *)
Fixpoint convert_to_camel_case (capitalize_next_char : bool) (c : string) : string :=
  match c with
  | "" => ""
  | String ch rest =>
      if is_underscore ch then convert_to_camel_case true rest
      else if capitalize_next_char
           then String (toupper ch) (convert_to_camel_case false rest)
           else String (tolower ch) (convert_to_camel_case false rest)
  end.

Definition make_rust_type_name (typename : lcm_typename_t) : string :=
  let result := strip_underscore_t (shortname typename) in
  convert_to_camel_case true result.

(** [map_lcm_primitive]: the Rust name of a primitive LCM type, NULL (here
    [None]) for any other name. *)
Definition map_lcm_primitive (typename : string) : option string :=
  if String.eqb typename "boolean" then Some "bool"
  else if String.eqb typename "string" then Some "String"
  else if String.eqb typename "byte" then Some "u8"
  else if String.eqb typename "int8_t" then Some "i8"
  else if String.eqb typename "int16_t" then Some "i16"
  else if String.eqb typename "int32_t" then Some "i32"
  else if String.eqb typename "int64_t" then Some "i64"
  else if String.eqb typename "uint8_t" then Some "u8"
  else if String.eqb typename "uint16_t" then Some "u16"
  else if String.eqb typename "uint32_t" then Some "u32"
  else if String.eqb typename "uint64_t" then Some "u64"
  else if String.eqb typename "float" then Some "f32"
  else if String.eqb typename "double" then Some "f64"
  else None.

Definition map_type_name (typename : lcm_typename_t) : string :=
  match map_lcm_primitive (shortname typename) with
  | Some t => t
  | None => make_rust_type_name typename
  end.

(** *** Paths of the generated files *)

(** [dots_to_double_colons]: a copy of the package name in which every '.'
    has become "::"; the two-step write of the source ([*q = ':'; q++;
    *q = ':']) is the two characters below. *)
Fixpoint dots_to_double_colons (s : string) : string :=
  match s with
  | "" => ""
  | String t rest =>
      if bool_decide (t = "."%char)
      then String ":"%char (String ":"%char (dots_to_double_colons rest))
      else String t (dots_to_double_colons rest)
  end.

(** The loop [for (char* c = result + strlen(prefix); *c != 0; ++c)] of
    [make_rust_file_path]: the first [skip] characters are left as they are,
    every '.' after them becomes '/'. *)
Fixpoint replace_dots_from (skip : nat) (result : string) : string :=
  match result with
  | "" => ""
  | String c rest =>
      match skip with
      | S skip => String c (replace_dots_from skip rest)
      | O =>
          String (if bool_decide (c = "."%char) then "/"%char else c)
                 (replace_dots_from O rest)
      end
  end.

(** [make_rust_file_path]: the three [strcat]s, then the loop.  The
    allocations of this file are taken to succeed. *)
Definition make_rust_file_path (prefix : string) (lcm_struct : lcm_struct_t) : string :=
  let package_name := package (structname lcm_struct) in
  let result := (prefix +:+ "/") +:+ package_name in
  replace_dots_from (String.length prefix) result.

Definition make_rust_mod_file_name (prefix : string) (lcm_struct : lcm_struct_t) : string :=
  let modfile_suffix := "/mod.rs" in
  let path := make_rust_file_path prefix lcm_struct in
  path +:+ modfile_suffix.

Definition make_rust_file_name (prefix : string) (lcm_struct : lcm_struct_t) : string :=
  let rust_suffix := ".rs" in
  let path := make_rust_file_path prefix lcm_struct in
  let basename := strip_underscore_t (shortname (structname lcm_struct)) in
  ((path +:+ "/") +:+ basename) +:+ rust_suffix.

(** [make_rustdoc_comment].  [rustdoc_lines] is the count of the first loop,
    which sizes the buffer ([4*lines + strlen(comment) + 1] bytes);
    [rustdoc_copy] is the second loop, which copies the comment and writes
    "/// " after every line feed. *)
Fixpoint rustdoc_lines (lines : nat) (c : string) : nat :=
  match c with
  | "" => lines
  | String ch rest =>
      rustdoc_lines (if bool_decide (ch = "010"%char) then S lines else lines) rest
  end.

Fixpoint rustdoc_copy (c : string) : string :=
  match c with
  | "" => ""
  | String ch rest =>
      if bool_decide (ch = "010"%char)
      then String ch ("/// " +:+ rustdoc_copy rest)
      else String ch (rustdoc_copy rest)
  end.

Definition make_rustdoc_comment (comment : string) : string :=
  "/// " +:+ rustdoc_copy comment.

(** [make_dirs_for_file] (the branch without WIN32): the arguments of its
    [mkdir] calls, in the order of the calls.  [dirpath] is the part of the
    path before index [i], [rest] the part from [i] on; [skip] is set by the
    [i++] in the body, which makes the loop pass over the character after a
    '/' without looking at it. *)
Fixpoint make_dirs_from (dirpath rest : string) (skip : bool) : list string :=
  match rest with
  | "" => []
  | String c rest =>
      let next := dirpath +:+ String c "" in
      if skip then make_dirs_from next rest false
      else if bool_decide (c = "/"%char)
           then dirpath :: make_dirs_from next rest true
           else make_dirs_from next rest false
  end.

Definition make_dirs_for_file (path : string) : list string :=
  make_dirs_from "" path false.

Section Separator.

(** [G_DIR_SEPARATOR] of GLib: '/' or, on Windows, a backslash. *)
Variable G_DIR_SEPARATOR : ascii.

(** [dots_to_slashes]: not called by this generation; the first generation
    has the same function and builds its file names with it. *)
Fixpoint dots_to_slashes (s : string) : string :=
  match s with
  | "" => ""
  | String t rest =>
      String (if bool_decide (t = "."%char) then G_DIR_SEPARATOR else t)
             (dots_to_slashes rest)
  end.

End Separator.

(** *** The output file and the emit macros

    The text written to [FILE *f] so far is a string; every macro appends
    to it. *)
Abbreviation FILE := string (only parsing).

Definition newline : string := String "010"%char "".

(** [fprintf(f, "%*s", n, "")]: n spaces. *)
Fixpoint spaces (n : nat) : string :=
  match n with
  | O => ""
  | S n => String " "%char (spaces n)
  end.

Definition INDENT (n : nat) : nat := 4 * n.

Definition emit_start (n : nat) (text : string) (f : FILE) : FILE :=
  f +:+ spaces (INDENT n) +:+ text.

Definition emit_continue (text : string) (f : FILE) : FILE :=
  f +:+ text.

Definition emit_end (text : string) (f : FILE) : FILE :=
  f +:+ text +:+ newline.

Definition emit (n : nat) (text : string) (f : FILE) : FILE :=
  f +:+ spaces (INDENT n) +:+ text +:+ newline.

Definition hex_digit (d : Z) : ascii :=
  match d with
  | 0 => "0" | 1 => "1" | 2 => "2" | 3 => "3" | 4 => "4" | 5 => "5"
  | 6 => "6" | 7 => "7" | 8 => "8" | 9 => "9" | 10 => "a" | 11 => "b"
  | 12 => "c" | 13 => "d" | 14 => "e" | _ => "f"
  end%char.

Fixpoint hex_fixed (digits : nat) (z : Z) : string :=
  match digits with
  | O => ""
  | S digits => hex_fixed digits (z / 16) +:+ String (hex_digit (z mod 16)) ""
  end.

(** The conversion "%016" PRIx64 of an int64_t: the sixteen hexadecimal
    digits of its 64-bit two's complement pattern. *)
Definition PRIx64_016 (v : Z) : string := hex_fixed 16 (wrap_u64 v).

(** *** The file system and the standard output

    What [emit_rust] does to its environment: the regular files, as a map
    from a path to the content of the file, and the sequence of the [printf]
    and [mkdir] calls.  A stream opened by [fopen] is the text the file will
    hold when it is closed. *)
Inductive event :=
  | Printf (text : string)
  | Mkdir (dirpath : string).

Record world := {
  files : gmap string string;
  events : list event
}.

Definition printf (text : string) (w : world) : world :=
  {| files := files w; events := events w ++ [Printf text] |}.

Definition mkdir (dirpath : string) (w : world) : world :=
  {| files := files w; events := events w ++ [Mkdir dirpath] |}.

(** [remove(path) == 0]: the file was there and is gone. *)
Definition remove (path : string) (w : world) : bool * world :=
  match files w !! path with
  | Some _ => (true, {| files := delete path (files w); events := events w |})
  | None => (false, w)
  end.

Definition fclose (path : string) (f : FILE) (w : world) : world :=
  {| files := <[path := f]> (files w); events := events w |}.

Section Emitters.

(** [lcm_is_primitive_type] is declared in lcmgen.h and defined in lcmgen.c;
    the emitter is taken for any such predicate on type names. *)
Variable lcm_is_primitive_type : string → bool.

(** The test that guards the hash term of a member: its type is not
    primitive and [strcmp] tells it apart from the struct's own type. *)
Definition refers_to_other_struct (lcm_struct : lcm_struct_t) (lm : lcm_member_t) : bool :=
  let tn := lctypename (type lm) in
  negb (lcm_is_primitive_type tn)
  && negb (String.eqb tn (lctypename (structname lcm_struct))).

Definition emit_impl_message_hash (lcm_struct : lcm_struct_t) (f : FILE) : FILE :=
  let f := emit 1 "fn hash() -> u64 {" f in
  let f := emit 2 "let hash = {" f in
  let f := emit 3 ("0x" +:+ PRIx64_016 (hash lcm_struct) +:+ "u64") f in
  let f :=
    foldl (λ f lm,
             if refers_to_other_struct lcm_struct lm then
               let mapped_tn := map_type_name (type lm) in
               emit 3 (".wrapping_add(" +:+ mapped_tn +:+ "::hash())") f
             else f)
          f (members lcm_struct) in
  let f := emit 2 "};" f in
  let f := emit 2 "(hash << 1) + ((hash >> 63) & 1)" f in
  let f := emit 1 "}" f in
  emit 0 "" f.

(** [for (unsigned int d = start; ...; ++d)] over the elements of an array,
    [body d x] being the loop body at index [d] and element [x]. *)
Fixpoint for_each_from {A : Type} (d : nat) (l : list A)
    (body : nat → A → FILE → FILE) (f : FILE) : FILE :=
  match l with
  | [] => f
  | x :: l => for_each_from (S d) l body (body d x f)
  end.

(** [for (unsigned int d = ndim; d-- != 0; )]. *)
Definition for_each_down (ndim : nat) (body : nat → FILE → FILE) (f : FILE) : FILE :=
  foldl (λ f d, body d f) f (rev (seq 0 ndim)).

Definition dquote : string := String "034"%char "".

(** The body of the loop over the dimensions of a member in
    [emit_impl_message_encode]. *)
Definition emit_encode_dimension (d : nat) (dimension : lcm_dimension_t) (f : FILE) : FILE :=
  if decide (mode dimension = LCM_VAR) then
    let f := emit (2 + d) ("if self." +:+ size dimension
                           +:+ " as usize > item.len() {") f in
    let f := emit (2 + d + 1)
               ("return Err(Error::new(ErrorKind::Other, " +:+ dquote
                +:+ "Size is larger than vector" +:+ dquote +:+ "));") f in
    let f := emit (2 + d) "};" f in
    emit (2 + d) ("for item in item.iter().take(self." +:+ size dimension
                  +:+ " as usize) {") f
  else
    emit (2 + d) "for item in item.iter() {" f.

(** The body of the loop over the members in [emit_impl_message_encode]. *)
Definition emit_encode_member (member : lcm_member_t) (f : FILE) : FILE :=
  let ndim := length (dimensions member) in
  let f := emit 2 ("let item = &self." +:+ membername member +:+ ";") f in
  let f := for_each_from 0 (dimensions member) emit_encode_dimension f in
  let f := emit (2 + ndim) "item.encode(&mut buffer)?;" f in
  for_each_down ndim (λ d f, emit (2 + d) "}" f) f.

Definition emit_impl_message_encode (lcm_struct : lcm_struct_t) (f : FILE) : FILE :=
  let n_members := length (members lcm_struct) in
  let f := emit 1 ("fn encode(&self, "
                   +:+ (if decide (n_members = 0%nat) then "_" else "mut buffer")
                   +:+ ": &mut Write) -> Result<()> {") f in
  let f := foldl (λ f member, emit_encode_member member f) f (members lcm_struct) in
  let f := emit 2 "Ok(())" f in
  let f := emit 1 "}" f in
  emit 0 "" f.

(** [sscanf(s, "%d", &size)] on the size of a constant dimension: the value
    of the leading decimal digits.  The parser makes a dimension LCM_CONST
    only when its size starts with a digit; without one [size] would be left
    uninitialised, and 0 stands for it here. *)
Definition digit_value (c : ascii) : option nat :=
  let n := N_of_ascii c in
  if ((48 <=? n) && (n <=? 57))%N then Some (N.to_nat (n - 48)) else None.

Fixpoint scan_digits (acc : nat) (s : string) : nat :=
  match s with
  | "" => acc
  | String c rest =>
      match digit_value c with
      | Some v => scan_digits (10 * acc + v) rest
      | None => acc
      end
  end.

Definition sscanf_d (s : string) : nat := scan_digits 0 s.

(** [i] times the body, for [for (int i = 0; i != size; ++i)]. *)
Fixpoint repeat_emit (i : nat) (body : FILE → FILE) (f : FILE) : FILE :=
  match i with
  | O => f
  | S i => repeat_emit i body (body f)
  end.

(** The mode of the dimension before [dim]; there is none before the
    outermost. *)
Definition previous_is_const (member : lcm_member_t) (dim : nat) : bool :=
  match dim with
  | O => true
  | S prev =>
      match dimensions member !! prev with
      | Some dimension => bool_decide (mode dimension = LCM_CONST)
      | None => false
      end
  end.

(** [emit_impl_message_decode_recursive (f, member, dim)]; [rest] is the
    part of [member->dimensions] from index [dim] on, on which the
    recursion runs: it is empty exactly when [dim] is the number of
    dimensions. *)
Fixpoint emit_impl_message_decode_recursive (member : lcm_member_t)
    (rest : list lcm_dimension_t) (dim : nat) (f : FILE) : FILE :=
  match rest with
  | [] =>
      let f := emit_end "" f in
      let f := emit_start (3 + dim) "Message::decode(&mut buffer)" f in
      if previous_is_const member dim then emit_continue "?" f else f
  | dimension :: rest =>
      match mode dimension with
      | LCM_CONST =>
          let f := emit_continue "[" f in
          let size := sscanf_d (size dimension) in
          let f :=
            repeat_emit size
              (λ f, let f := emit_impl_message_decode_recursive member rest (dim + 1) f in
                    emit_continue "," f)
              f in
          let f := emit_end "" f in
          emit_start (2 + dim) "]" f
      | LCM_VAR =>
          let f := emit_end "" f in
          let f := emit_start (3 + dim) ("(0.." +:+ size dimension +:+ ").map(|_| {") f in
          let f := emit_impl_message_decode_recursive member rest (dim + 1) f in
          let f := emit_end "" f in
          let f := emit_start (3 + dim) "}).collect::<Result<_>>()" f in
          if previous_is_const member dim then emit_continue "?" f else f
      end
  end.

(** The bodies of the two loops over the members in
    [emit_impl_message_decode]. *)
Definition emit_decode_member (member : lcm_member_t) (f : FILE) : FILE :=
  let f := emit_start 2 ("let " +:+ membername member +:+ " = ") f in
  let f := emit_impl_message_decode_recursive member (dimensions member) 0 f in
  let f := emit_end ";" f in
  emit 0 "" f.

Definition emit_decode_field (member : lcm_member_t) (f : FILE) : FILE :=
  emit 3 (membername member +:+ ": " +:+ membername member +:+ ",") f.

Definition emit_impl_message_decode (lcm_struct : lcm_struct_t) (f : FILE) : FILE :=
  let type_name := make_rust_type_name (structname lcm_struct) in
  let n_members := length (members lcm_struct) in
  let f := emit 1 ("fn decode("
                   +:+ (if decide (n_members = 0%nat) then "_" else "mut buffer")
                   +:+ ": &mut Read) -> Result<Self> {") f in
  let f := foldl (λ f member, emit_decode_member member f) f (members lcm_struct) in
  let f := emit 2 ("Ok(" +:+ type_name +:+ " {") f in
  let f := foldl (λ f member, emit_decode_field member f) f (members lcm_struct) in
  let f := emit 2 "})" f in
  let f := emit 1 "}" f in
  emit 0 "" f.

(** The body of the loop over the members in [emit_impl_message_size]. *)
Definition emit_size_member (member : lcm_member_t) (f : FILE) : FILE :=
  let ndim := length (dimensions member) in
  let f := emit_start 2 ("+ self." +:+ membername member) f in
  if decide (0 < ndim)%nat then
    let f :=
      for_each_from 0 (dimensions member)
        (λ d _ f,
           if decide (d = 0%nat) then emit_continue ".iter()" f
           else emit_continue ".flat_map(IntoIterator::into_iter)" f)
        f in
    emit_end ".map(Message::size).sum::<usize>()" f
  else
    emit_end ".size()" f.

Definition emit_impl_message_size (lcm_struct : lcm_struct_t) (f : FILE) : FILE :=
  let f := emit 1 "fn size(&self) -> usize {" f in
  let f := emit 2 "0" f in
  let f := foldl (λ f member, emit_size_member member f) f (members lcm_struct) in
  emit 1 "}" f.

Definition emit_impl_message (lcm_struct : lcm_struct_t) (f : FILE) : FILE :=
  let type_name := make_rust_type_name (structname lcm_struct) in
  let f := emit 0 ("impl Message for " +:+ type_name +:+ " {") f in
  let f := emit_impl_message_hash lcm_struct f in
  let f := emit_impl_message_encode lcm_struct f in
  let f := emit_impl_message_decode lcm_struct f in
  let f := emit_impl_message_size lcm_struct f in
  let f := emit 0 "}" f in
  emit 0 "" f.

(** *** The module file, the header, the struct definition, the constants *)

Definition emit_pub_use (lcm_struct : lcm_struct_t) (f : FILE) : FILE :=
  let struct_mod_name := strip_underscore_t (shortname (structname lcm_struct)) in
  let struct_name := make_rust_type_name (structname lcm_struct) in
  let f := emit 0 "" f in
  let f := emit 0 ("pub mod " +:+ struct_mod_name +:+ ";") f in
  emit 0 ("pub use self::" +:+ struct_mod_name +:+ "::" +:+ struct_name +:+ ";") f.

Definition emit_header_start (f : FILE) : FILE :=
  let f := emit 0 "// GENERATED CODE - DO NOT EDIT" f in
  let f := emit 0 "" f in
  let f := emit 0 "use lcm::Message;" f in
  emit 0 "use std::io::{Result, Error, ErrorKind, Read, Write};" f.

(** The inner loop of "Include non-primitive types": [skip] is set when a
    member before index [mind] has a type that is not primitive and has the
    name of the type of [lm]. *)
Definition already_used (lcm_struct : lcm_struct_t) (mind : nat) (lm : lcm_member_t) : bool :=
  existsb (λ pm, negb (lcm_is_primitive_type (lctypename (type pm)))
                 && String.eqb (lctypename (type pm)) (lctypename (type lm)))
          (take mind (members lcm_struct)).

(** The body of the loop "Include non-primitive types" at index [mind]. *)
Definition emit_use (lcm_struct : lcm_struct_t) (mind : nat) (lm : lcm_member_t)
    (f : FILE) : FILE :=
  if refers_to_other_struct lcm_struct lm then
    if already_used lcm_struct mind lm then f
    else
      let mapped_tn := map_type_name (type lm) in
      let other_pn := dots_to_double_colons (package (type lm)) in
      emit 0 ("use " +:+ other_pn +:+ "::" +:+ mapped_tn +:+ ";") f
  else f.

(** The two loops over the dimensions of a member in [emit_struct_def]:
    forwards to open the array declaration, backwards to close it. *)
Definition emit_open_dimension (dimension : lcm_dimension_t) (f : FILE) : FILE :=
  match mode dimension with
  | LCM_CONST => emit_continue "[" f
  | LCM_VAR => emit_continue "Vec<" f
  end.

Definition emit_close_dimension (dimension : lcm_dimension_t) (f : FILE) : FILE :=
  match mode dimension with
  | LCM_CONST => emit_continue ("; " +:+ size dimension +:+ "]") f
  | LCM_VAR => emit_continue ">" f
  end.

(** The body of the loop over the members in [emit_struct_def]. *)
Definition emit_struct_member (member : lcm_member_t) (f : FILE) : FILE :=
  let ndim := length (dimensions member) in
  let f := match comment member with
           | Some c => emit 1 (make_rustdoc_comment c) f
           | None => f
           end in
  let f := emit_start 1 ("pub " +:+ membername member +:+ ": ") f in
  let f := for_each_from 0 (dimensions member)
             (λ _ dimension f, emit_open_dimension dimension f) f in
  let f := emit_continue (map_type_name (type member)) f in
  let f := for_each_down ndim
             (λ d f, match dimensions member !! d with
                     | Some dimension => emit_close_dimension dimension f
                     | None => f
                     end) f in
  emit_end "," f.

Definition emit_struct_def (lcm_struct : LcmStruct.t) (f : FILE) : FILE :=
  let ls := LcmStruct.fields lcm_struct in
  let struct_name := make_rust_type_name (structname ls) in
  let f := for_each_from 0 (members ls) (emit_use ls) f in
  let f := emit 0 "" f in
  let f := match LcmStruct.comment lcm_struct with
           | Some c => emit 0 (make_rustdoc_comment c) f
           | None => f
           end in
  let f := emit 0 "#[derive(Debug, Default, Clone, PartialEq)]" f in
  let f := emit 0 ("pub struct " +:+ struct_name +:+ " {") f in
  let f := foldl (λ f member, emit_struct_member member f) f (members ls) in
  let f := emit 0 "}" f in
  emit 0 "" f.

(** [lcm_is_legal_const_type] is declared in lcmgen.h and defined in
    lcmgen.c. *)
Variable lcm_is_legal_const_type : string → bool.

(** [emit_constants].  The result is [None] where the C program has none:
    the [assert] fails, or [map_lcm_primitive] returns NULL and the NULL
    is passed to a "%s" conversion. *)
Definition emit_constant (lc : LcmConstant.lcm_constant_t) (f : FILE) : option FILE :=
  if lcm_is_legal_const_type (LcmConstant.lctypename lc) then
    let f := match LcmConstant.comment lc with
             | Some c => emit 1 (make_rustdoc_comment c) f
             | None => f
             end in
    mapped_typename ← map_lcm_primitive (LcmConstant.lctypename lc);
    let f := emit 1 ("pub const " +:+ LcmConstant.membername lc +:+ ": "
                     +:+ mapped_typename +:+ " = " +:+ LcmConstant.val_str lc +:+ ";") f in
    Some (emit 0 "" f)
  else None.

Fixpoint emit_constants_from (constants : list LcmConstant.lcm_constant_t) (f : FILE)
    : option FILE :=
  match constants with
  | [] => Some f
  | lc :: constants => f ← emit_constant lc f; emit_constants_from constants f
  end.

Definition emit_constants (lcm_struct : LcmStruct.t) (f : FILE) : option FILE :=
  emit_constants_from (LcmStruct.constants lcm_struct) f.

(** *** [emit_rust] *)

(** The options "rust-path" and "rust-cargo" of the command line. *)
Variable rust_path : string.
Variable emit_cargo_messages : bool.

(** Whether [fopen] gets a stream for a path: the access rights and the
    directories that exist decide it, and they are not part of [world]. *)
Variable can_open : string → bool.

(** [fopen(path, "a")]: the stream continues the file, or starts one. *)
Definition fopen_a (path : string) (w : world) : option FILE :=
  if can_open path then Some (default "" (files w !! path)) else None.

(** [fopen(path, "w")]: the stream starts an empty file. *)
Definition fopen_w (path : string) (w : world) : option FILE :=
  if can_open path then Some "" else None.

Definition make_dirs (path : string) (w : world) : world :=
  foldl (λ w dirpath, mkdir dirpath w) w (make_dirs_for_file path).

(** The body of the loop "Remove mod.rs for each module". *)
Definition remove_mod_file (lcm_struct : LcmStruct.t) (w : world) : world :=
  let modfile_name := make_rust_mod_file_name rust_path (LcmStruct.fields lcm_struct) in
  let w := match remove modfile_name w with
           | (true, w) => printf ("Removed file: " +:+ modfile_name +:+ newline) w
           | (false, w) => w
           end in
  if emit_cargo_messages
  then printf ("cargo:rerun-if-changed=" +:+ modfile_name +:+ newline) w
  else w.

(** The loop "Expose each struct from its mod file"; [false] with the
    world when the function returns from inside the loop. *)
Fixpoint expose_structs (structs : list LcmStruct.t) (w : world) : bool * world :=
  match structs with
  | [] => (true, w)
  | lcm_struct :: structs =>
      let modfile_name := make_rust_mod_file_name rust_path (LcmStruct.fields lcm_struct) in
      let w := make_dirs modfile_name w in
      match fopen_a modfile_name w with
      | None =>
          (false, printf ("Couldn't open " +:+ modfile_name +:+ " for writing" +:+ newline) w)
      | Some f =>
          let f := emit_pub_use (LcmStruct.fields lcm_struct) f in
          expose_structs structs (fclose modfile_name f w)
      end
  end.

(** The loop "Declare and implement each struct"; [None] where
    [emit_constants] has no result. *)
Fixpoint declare_structs (structs : list LcmStruct.t) (w : world) : option (bool * world) :=
  match structs with
  | [] => Some (true, w)
  | lcm_struct :: structs =>
      let w := printf ("Emitting code for "
                       +:+ lctypename (structname (LcmStruct.fields lcm_struct))
                       +:+ newline) w in
      let file_name := make_rust_file_name rust_path (LcmStruct.fields lcm_struct) in
      match fopen_w file_name w with
      | None =>
          Some (false,
                printf ("Couldn't open " +:+ file_name +:+ " for writing" +:+ newline) w)
      | Some f =>
          let f := emit_header_start f in
          let f := emit_struct_def lcm_struct f in
          f ← emit_constants lcm_struct f;
          let f := emit_impl_message (LcmStruct.fields lcm_struct) f in
          let w := if emit_cargo_messages
                   then printf ("cargo:rerun-if-changed=" +:+ file_name +:+ newline) w
                   else w in
          declare_structs structs (fclose file_name f w)
      end
  end.

(** [emit_rust]: the value returned and the world it leaves. *)
Definition emit_rust (structs : list LcmStruct.t) (w : world) : option (Z * world) :=
  let w := printf ("rust-path: " +:+ rust_path +:+ newline) w in
  let w := foldl (λ w lcm_struct, remove_mod_file lcm_struct w) w structs in
  match expose_structs structs w with
  | (false, w) => Some (-1, w)
  | (true, w) =>
      match declare_structs structs w with
      | Some (true, w) => Some (0, w)
      | Some (false, w) => Some (-1, w)
      | None => None
      end
  end.

End Emitters.

End EmitRust.

(** ** The first generation of the emitter (the older emit_rust.c) *)

Module Gen0.

(** Takes the short name itself; no suffix is stripped and the characters
    that are not capitalised are copied as they are. *)
Fixpoint make_rust_type_name_from (capitalize_next_char : bool) (c : string) : string :=
  match c with
  | "" => ""
  | String ch rest =>
      if is_underscore ch then make_rust_type_name_from true rest
      else if capitalize_next_char
           then String (toupper ch) (make_rust_type_name_from false rest)
           else String ch (make_rust_type_name_from false rest)
  end.

Definition make_rust_type_name (input : string) : string :=
  make_rust_type_name_from true input.

(** The hash function of the first generation's [emit_impl_message]: the
    base hash as a literal, and the same final expression. *)
Definition emit_impl_message_hash (ls : lcm_struct_t) (f : string) : string :=
  let f := EmitRust.emit 1 "fn hash(&self) -> i64 {" f in
  let f := EmitRust.emit 2 ("let hash = 0x" +:+ EmitRust.PRIx64_016 (hash ls) +:+ ";") f in
  let f := EmitRust.emit 2 "(hash << 1) + ((hash >> 63) & 1)" f in
  EmitRust.emit 1 "}" f.

(** [map_type_name] of the first generation takes the name itself and
    returns it when it is not the name of a primitive type. *)
Definition map_type_name (t : string) : string :=
  if String.eqb t "boolean" then "bool"
  else if String.eqb t "string" then "String"
  else if String.eqb t "byte" then "u8"
  else if String.eqb t "int8_t" then "i8"
  else if String.eqb t "int16_t" then "i16"
  else if String.eqb t "int32_t" then "i32"
  else if String.eqb t "int64_t" then "i64"
  else if String.eqb t "uint8_t" then "u8"
  else if String.eqb t "uint16_t" then "u16"
  else if String.eqb t "uint32_t" then "u32"
  else if String.eqb t "uint64_t" then "u64"
  else if String.eqb t "float" then "f32"
  else if String.eqb t "double" then "f64"
  else t.

Section StructDef.

(** [lcm_is_constant_size_array] is declared in lcmgen.h and defined in
    lcmgen.c. *)
Variable lcm_is_constant_size_array : lcm_member_t → bool.

(** The body of the loop over the members in the first generation's
    [emit_struct_def]. *)
Definition emit_struct_member (lm : lcm_member_t) (f : string) : string :=
  let mn := membername lm in
  let mapped_typename := map_type_name (lctypename (type lm)) in
  let ndim := length (dimensions lm) in
  let f := EmitRust.emit_start 1 ("pub " +:+ mn +:+ ": ") f in
  let f :=
    if decide (ndim = 0%nat) then EmitRust.emit_continue mapped_typename f
    else if lcm_is_constant_size_array lm then
      let f := EmitRust.repeat_emit ndim (EmitRust.emit_continue "GenericArray<") f in
      let f := EmitRust.emit_continue mapped_typename f in
      EmitRust.for_each_from 0 (dimensions lm)
        (λ _ ld f, EmitRust.emit_continue (", typenum::U" +:+ size ld +:+ ">") f) f
    else
      let f := EmitRust.repeat_emit ndim (EmitRust.emit_continue "Vec<") f in
      let f := EmitRust.emit_continue mapped_typename f in
      EmitRust.repeat_emit ndim (EmitRust.emit_continue ">") f in
  EmitRust.emit_end "," f.

Definition emit_struct_def (ls : lcm_struct_t) (f : string) : string :=
  let sn := shortname (structname ls) in
  let sn_camel := make_rust_type_name sn in
  let f := EmitRust.emit 0 "#[derive(Default)]" f in
  let f := EmitRust.emit 0 ("pub struct " +:+ sn_camel +:+ " {") f in
  let f := foldl (λ f lm, emit_struct_member lm f) f (members ls) in
  let f := EmitRust.emit 0 "}" f in
  EmitRust.emit 0 "" f.

End StructDef.

End Gen0.

(** ** The emitted Rust code and what it computes *)

Module Rust.

(** *** The hash function

    [fn hash() -> u64 { let hash = { LIT.wrapping_add(T1::hash())... };
    (hash << 1) + ((hash >> 63) & 1) }]: a literal and the Rust type names
    whose [hash()] is added to it, in the order of the text. *)
Record hash_fn := {
  hash_literal : Z;
  hash_terms : list string
}.

Definition render_hash_fn (hf : hash_fn) : string :=
  let f := EmitRust.emit 1 "fn hash() -> u64 {" "" in
  let f := EmitRust.emit 2 "let hash = {" f in
  let f := EmitRust.emit 3 ("0x" +:+ EmitRust.hex_fixed 16 (hash_literal hf) +:+ "u64") f in
  let f := foldl (λ f tn, EmitRust.emit 3 (".wrapping_add(" +:+ tn +:+ "::hash())") f)
                 f (hash_terms hf) in
  let f := EmitRust.emit 2 "};" f in
  let f := EmitRust.emit 2 "(hash << 1) + ((hash >> 63) & 1)" f in
  let f := EmitRust.emit 1 "}" f in
  EmitRust.emit 0 "" f.

(** The block bound to [hash]; [type_hash T] is what [T::hash()] returns. *)
Definition composed_hash (type_hash : string → Z) (hf : hash_fn) : Z :=
  foldl (λ acc tn, wrapping_add acc (type_hash tn)) (hash_literal hf) (hash_terms hf).

(** [(hash << 1) + ((hash >> 63) & 1)] on u64. *)
Definition fingerprint_expr (hash : Z) : option Z :=
  u64_add (u64_shl hash 1) (Z.land (u64_shr hash 63) 1).

(** The same expression where [hash] is an i64 (first generation). *)
Definition fingerprint_expr_i64 (hash : Z) : option Z :=
  i64_add (i64_shl hash 1) (Z.land (i64_shr hash 63) 1).

Definition eval_hash_fn (type_hash : string → Z) (hf : hash_fn) : option Z :=
  fingerprint_expr (composed_hash type_hash hf).

(** What the emitter writes for a struct, as a [hash_fn]. *)
Definition hash_fn_of (lcm_is_primitive_type : string → bool)
    (lcm_struct : lcm_struct_t) : hash_fn :=
  {| hash_literal := wrap_u64 (hash lcm_struct);
     hash_terms :=
       (λ lm, EmitRust.map_type_name (type lm)) <$>
       filter (λ lm, EmitRust.refers_to_other_struct lcm_is_primitive_type lcm_struct lm = true)
              (members lcm_struct) |}.

(** The calls between the emitted hash functions.  [call T] is what the
    call [T::hash()] returns, [None] when it does not return. *)
Definition sum_calls (call : string → option Z) (hf : hash_fn) : option Z :=
  foldl (λ acc tn,
           match acc, call tn with
           | Some a, Some v => Some (wrapping_add a v)
           | _, _ => None
           end)
        (Some (hash_literal hf)) (hash_terms hf).

Definition call_hash_fn (call : string → option Z) (hf : hash_fn) : option Z :=
  match sum_calls call hf with
  | Some hash => fingerprint_expr hash
  | None => None
  end.

(** [T::hash()] in a crate, which has a [hash_fn] for each of its Rust type
    names, by at most [fuel] nested calls: [None] when the call has not
    returned by then. *)
Fixpoint run_hash (crate : string → option hash_fn) (fuel : nat) (tn : string) : option Z :=
  match fuel with
  | O => None
  | S fuel =>
      match crate tn with
      | Some hf => call_hash_fn (run_hash crate fuel) hf
      | None => None
      end
  end.

(** The crate emitted for a list of structs. *)
Definition crate_of (lcm_is_primitive_type : string → bool)
    (structs : list lcm_struct_t) (tn : string) : option hash_fn :=
  hash_fn_of lcm_is_primitive_type
  <$> head (filter (λ s, EmitRust.map_type_name (structname s) = tn) structs).

(** *** Results of the emitted routines *)

Inductive error :=
  | SizeLargerThanVector   (* Error::new(ErrorKind::Other, "Size is larger than vector") *)
  | IoError.               (* any other std::io::Error, such as the end of the input *)

Inductive outcome (A : Type) :=
  | Ok (a : A)             (* the routine returns Ok(a) *)
  | Err (e : error)        (* the routine returns Err(e) *)
  | NoRust.                (* rustc rejects the emitted code: there is nothing to run *)

Global Arguments Ok {A} a.
Global Arguments Err {A} e.
Global Arguments NoRust {A}.

Global Instance outcome_ret : MRet outcome := λ A a, Ok a.

Global Instance outcome_bind : MBind outcome := λ A B k m,
  match m with
  | Ok a => k a
  | Err e => Err e
  | NoRust => NoRust
  end.

(** *** Values

    A field holds a leaf (a primitive or a nested struct, which comes with
    its own [Message] implementation) or a sequence, a [Vec] or an array, of
    values. *)
Local Unset Elimination Schemes.

Inductive value (L : Type) :=
  | VLeaf (l : L)
  | VSeq (xs : list (value L)).

Local Set Elimination Schemes.

Global Arguments VLeaf {L} l.
Global Arguments VSeq {L} xs.

(** The [Message] implementations the emitted code relies on (those of the
    lcm crate for the primitive types, and those emitted for other structs),
    as far as the emitted code uses them. *)
Class Leaf (L : Type) := {
  leaf_type : L → string;                 (* the Rust type of the value *)
  leaf_int : L → option Z;                (* the number an integer value stands for *)
  leaf_encode : L → outcome (list Byte.byte);   (* the bytes [encode] appends *)
  leaf_decode : string → list Byte.byte → outcome (L * list Byte.byte);
                                          (* [T::decode]: the value and the input left *)
  leaf_size : L → Z                       (* [size()] *)
}.

(** [z as usize], on a target with a 64-bit usize: sign extension for the
    signed types, so a negative value becomes a huge count. *)
Definition as_usize (z : Z) : Z := z mod 2 ^ 64.

(** [a + b] on usize, as a release build wraps it. *)
Definition usize_add (a b : Z) : Z := (a + b) mod 2 ^ 64.

(** *** Integer literals and names of Rust

    The length of an array type [[T; LIT]] is an integer literal of type
    usize: decimal, or with one of the prefixes 0x, 0o and 0b, with
    underscores between the digits, and with no suffix or the suffix
    usize. *)
Definition digit_of (radix : nat) (c : ascii) : option nat :=
  let n := nat_of_ascii c in
  let digit :=
    if ((48 <=? n) && (n <=? 57))%nat then Some (n - 48)%nat
    else if ((97 <=? n) && (n <=? 102))%nat then Some (n - 87)%nat
    else if ((65 <=? n) && (n <=? 70))%nat then Some (n - 55)%nat
    else None in
  match digit with
  | Some d => if (d <? radix)%nat then Some d else None
  | None => None
  end.

(** The digits and underscores a literal starts with, and what follows
    them; [seen] tells whether a digit has been met. *)
Fixpoint literal_digits (radix : nat) (seen : bool) (acc : nat) (s : string)
    : option (nat * string) :=
  match s with
  | "" => if seen then Some (acc, "") else None
  | String c rest =>
      if bool_decide (c = "_"%char) then literal_digits radix seen acc rest
      else match digit_of radix c with
           | Some d => literal_digits radix true (radix * acc + d)%nat rest
           | None => if seen then Some (acc, s) else None
           end
  end.

Definition rust_usize_literal (s : string) : option nat :=
  let decimal :=
    match s with
    | String c _ =>
        match digit_of 10 c with
        | Some _ => literal_digits 10 false 0 s
        | None => None
        end
    | "" => None
    end in
  let digits :=
    match s with
    | String c1 (String c2 rest) =>
        if bool_decide (c1 = "0"%char) && bool_decide (c2 = "x"%char)
        then literal_digits 16 false 0 rest
        else if bool_decide (c1 = "0"%char) && bool_decide (c2 = "o"%char)
        then literal_digits 8 false 0 rest
        else if bool_decide (c1 = "0"%char) && bool_decide (c2 = "b"%char)
        then literal_digits 2 false 0 rest
        else decimal
    | _ => decimal
    end in
  match digits with
  | Some (value, suffix) =>
      if (bool_decide (suffix = "") || bool_decide (suffix = "usize"))
         && bool_decide (Z.of_nat value < 2 ^ 64)
      then Some value else None
  | None => None
  end.

(** The names that are keywords, or reserved, in every edition of Rust, the
    constructors of the prelude, and the wildcard: no [let] binds a local
    of such a name that is then the value of a field of the same name. *)
Definition rust_reserved : list string :=
  [ "as"; "break"; "const"; "continue"; "crate"; "else"; "enum"; "extern";
    "false"; "fn"; "for"; "if"; "impl"; "in"; "let"; "loop"; "match"; "mod";
    "move"; "mut"; "pub"; "ref"; "return"; "self"; "Self"; "static"; "struct";
    "super"; "trait"; "true"; "type"; "unsafe"; "use"; "where"; "while";
    "abstract"; "become"; "box"; "do"; "final"; "macro"; "override"; "priv";
    "typeof"; "unsized"; "virtual"; "yield";
    "Ok"; "Err"; "Some"; "None"; "_" ].

Section Semantics.

Context {L : Type} `{Leaf L}.

Abbreviation bytes := (list Byte.byte).

(** *** encode *)

Inductive enc_loop :=
  | EncItem                                   (* item.encode(&mut buffer)?; *)
  | EncFor (body : enc_loop)                  (* for item in item.iter() { body } *)
  | EncForTake (size : string) (body : enc_loop).
      (* if self.SIZE as usize > item.len() { return Err(...) };
         for item in item.iter().take(self.SIZE as usize) { body } *)

(** [let item = &self.FIELD;] and the loops on it. *)
Record enc_member := {
  enc_field : string;
  enc_body : enc_loop
}.

(** [self.SIZE as usize]: the field is to be an integer. *)
Definition count_of (self : gmap string (value L)) (size : string) : outcome Z :=
  match self !! size with
  | Some (VLeaf l) =>
      match leaf_int l with
      | Some z => Ok (as_usize z)
      | None => NoRust
      end
  | _ => NoRust
  end.

Fixpoint for_each (body : value L → bytes → outcome bytes) (items : list (value L))
    (buffer : bytes) : outcome bytes :=
  match items with
  | [] => Ok buffer
  | item :: items => buffer ← body item buffer; for_each body items buffer
  end.

Fixpoint run_enc_loop (self : gmap string (value L)) (body : enc_loop)
    (item : value L) (buffer : bytes) : outcome bytes :=
  match body with
  | EncItem =>
      match item with
      | VLeaf l => written ← leaf_encode l; Ok (buffer ++ written)
      | VSeq _ => NoRust
      end
  | EncFor body =>
      match item with
      | VSeq items => for_each (run_enc_loop self body) items buffer
      | VLeaf _ => NoRust
      end
  | EncForTake size body =>
      match item with
      | VSeq items =>
          count ← count_of self size;
          if decide (count > Z.of_nat (length items)) then Err SizeLargerThanVector
          else for_each (run_enc_loop self body) (take (Z.to_nat count) items) buffer
      | VLeaf _ => NoRust
      end
  end.

Definition run_enc_member (self : gmap string (value L)) (m : enc_member)
    (buffer : bytes) : outcome bytes :=
  match self !! enc_field m with
  | Some item => run_enc_loop self (enc_body m) item buffer
  | None => NoRust
  end.

(** [fn encode(&self, buffer)]: the members in turn, then [Ok(())]; the
    result is the buffer with what was appended. *)
Fixpoint run_encode (fn : list enc_member) (self : gmap string (value L))
    (buffer : bytes) : outcome bytes :=
  match fn with
  | [] => Ok buffer
  | m :: fn => buffer ← run_enc_member self m buffer; run_encode fn self buffer
  end.

(** *** decode *)

Inductive dec_expr :=
  | DecLeaf (question : bool)
      (* Message::decode(&mut buffer), followed by ? or not *)
  | DecArray (n : nat) (declared : string) (elem : dec_expr)
      (* [ elem, ... elem, ] with n elements, the value of a field whose
         type is declared [T; DECLARED] *)
  | DecCollect (size : string) (body : dec_expr) (question : bool).
      (* (0..SIZE).map(|_| { body }).collect::<Result<_>>(), followed by ? or not *)

(** [let NAME = expr;], the leaves of [expr] being of Rust type [let_type]
    (the type of the field the local ends up in). *)
Record dec_let := {
  let_name : string;
  let_type : string;
  let_expr : dec_expr
}.

(** An expression followed by [?] and an array are values; a bare
    [decode] call and a bare [collect::<Result<_>>()] are [Result]s. *)
Definition is_plain (e : dec_expr) : bool :=
  match e with
  | DecLeaf question => question
  | DecArray _ _ _ => true
  | DecCollect _ _ question => question
  end.

(** The array types under an expression have lengths that are literals. *)
Fixpoint lengths_declared (e : dec_expr) : bool :=
  match e with
  | DecLeaf _ => true
  | DecArray _ declared elem =>
      bool_decide (is_Some (rust_usize_literal declared)) && lengths_declared elem
  | DecCollect _ body _ => lengths_declared body
  end.

(** What rustc requires: an array has as many elements as the type of its
    field declares, and its elements are values; the body of the closure
    handed to [collect::<Result<_>>()] is a [Result]. *)
Fixpoint well_typed (e : dec_expr) : bool :=
  match e with
  | DecLeaf _ => true
  | DecArray n declared elem =>
      bool_decide (rust_usize_literal declared = Some n)
      && (if decide (n = 0%nat) then lengths_declared elem
          else is_plain elem && well_typed elem)
  | DecCollect _ body _ => negb (is_plain body) && well_typed body
  end.

(** The expression has a call of [Message::decode(&mut buffer)] in its
    text: an array of no elements has no text for them. *)
Fixpoint calls_decode (e : dec_expr) : bool :=
  match e with
  | DecLeaf _ => true
  | DecArray n _ elem => negb (bool_decide (n = 0%nat)) && calls_decode elem
  | DecCollect _ body _ => calls_decode body
  end.

(** [0..SIZE] over a local: as many rounds as the integer says, none when
    it is negative. *)
Definition range_count (env : gmap string (value L)) (size : string) : outcome nat :=
  match env !! size with
  | Some (VLeaf l) =>
      match leaf_int l with
      | Some z => Ok (Z.to_nat z)
      | None => NoRust
      end
  | _ => NoRust
  end.

Fixpoint repeat_dec (n : nat) (step : bytes → outcome (value L * bytes))
    (buffer : bytes) : outcome (list (value L) * bytes) :=
  match n with
  | O => Ok ([], buffer)
  | S n =>
      '(v, buffer) ← step buffer;
      '(vs, buffer) ← repeat_dec n step buffer;
      Ok (v :: vs, buffer)
  end.

(** The value of an accepted expression and the input left; an [Err] is
    passed on by [?] or by [collect], which stops at the first one. *)
Fixpoint eval_dec (env : gmap string (value L)) (tn : string) (e : dec_expr)
    (buffer : bytes) : outcome (value L * bytes) :=
  match e with
  | DecLeaf _ =>
      '(l, buffer) ← leaf_decode tn buffer; Ok (VLeaf l, buffer)
  | DecArray n _ elem =>
      '(vs, buffer) ← repeat_dec n (eval_dec env tn elem) buffer; Ok (VSeq vs, buffer)
  | DecCollect size body _ =>
      count ← range_count env size;
      '(vs, buffer) ← repeat_dec count (eval_dec env tn body) buffer;
      Ok (VSeq vs, buffer)
  end.

(** The locals an expression takes its counts from. *)
Fixpoint sizes_of (e : dec_expr) : list string :=
  match e with
  | DecLeaf _ => []
  | DecArray n _ elem => if decide (n = 0%nat) then [] else sizes_of elem
  | DecCollect size body _ => size :: sizes_of body
  end.

(** The name of a [let]: one that a [let] binds, and no second local or
    field of a name.  A local named buffer hides the reader, which the
    [let]s after it cannot borrow any more: none of them has a call of
    [Message::decode(&mut buffer)]. *)
Definition binds (bound : list string) (l : dec_let) : bool :=
  negb (bool_decide (let_name l ∈ rust_reserved))
  && negb (bool_decide (let_name l ∈ bound))
  && (negb (bool_decide ("buffer" ∈ bound)) || negb (calls_decode (let_expr l))).

(** What rustc requires of the [let]s, [bound] being the locals before
    them: each binds a value, not a [Result], is well typed, takes its
    counts from locals bound before it, and [binds].  These are conditions
    without which the code is rejected; they are not all that rustc
    checks. *)
Fixpoint accepted_from (bound : list string) (fn : list dec_let) : bool :=
  match fn with
  | [] => true
  | l :: fn =>
      is_plain (let_expr l) && well_typed (let_expr l)
      && forallb (λ size, bool_decide (size ∈ bound)) (sizes_of (let_expr l))
      && binds bound l
      && accepted_from (let_name l :: bound) fn
  end.

Definition accepted (fn : list dec_let) : bool := accepted_from [] fn.

Definition run_let (env : gmap string (value L)) (l : dec_let) (buffer : bytes)
    : outcome (gmap string (value L) * bytes) :=
  '(v, buffer) ← eval_dec env (let_type l) (let_expr l) buffer;
  Ok (<[let_name l := v]> env, buffer).

Fixpoint run_lets (fn : list dec_let) (env : gmap string (value L)) (buffer : bytes)
    : outcome (gmap string (value L) * bytes) :=
  match fn with
  | [] => Ok (env, buffer)
  | l :: fn => '(env, buffer) ← run_let env l buffer; run_lets fn env buffer
  end.

(** [Ok(T { a: a, b: b, ... })]: every field from the local of its name. *)
Definition struct_literal (fn : list dec_let) (env : gmap string (value L))
    : gmap string (value L) :=
  list_to_map (omap (λ l, (λ v, (let_name l, v)) <$> env !! let_name l) fn).

(** [fn decode(buffer)]: the struct and the input left. *)
Definition run_decode (fn : list dec_let) (buffer : bytes)
    : outcome (gmap string (value L) * bytes) :=
  if accepted fn then
    '(env, buffer) ← run_lets fn ∅ buffer;
    Ok (struct_literal fn env, buffer)
  else NoRust.

(** *** size *)

(** [+ self.FIELD.size()] when there is no dimension, else
    [+ self.FIELD.iter()], one [.flat_map(IntoIterator::into_iter)] for each
    further dimension, and [.map(Message::size).sum::<usize>()]. *)
Record size_term := {
  size_field : string;
  size_ndim : nat
}.

(** The items that come out after [levels] levels of iteration. *)
Fixpoint flatten (levels : nat) (v : value L) : outcome (list (value L)) :=
  match levels with
  | O => Ok [v]
  | S levels =>
      match v with
      | VSeq items =>
          foldr (λ item rest, here ← flatten levels item; there ← rest; Ok (here ++ there))
                (Ok []) items
      | VLeaf _ => NoRust
      end
  end.

Definition size_of_item (v : value L) : outcome Z :=
  match v with
  | VLeaf l => Ok (leaf_size l)
  | VSeq _ => NoRust
  end.

Definition sum_sizes (items : list (value L)) : outcome Z :=
  foldl (λ acc item, total ← acc; n ← size_of_item item; Ok (usize_add total n))
        (Ok 0) items.

Definition run_size_term (self : gmap string (value L)) (t : size_term) : outcome Z :=
  match self !! size_field t with
  | Some v => items ← flatten (size_ndim t) v; sum_sizes items
  | None => NoRust
  end.

Definition run_size (fn : list size_term) (self : gmap string (value L)) : outcome Z :=
  foldl (λ acc t, total ← acc; n ← run_size_term self t; Ok (usize_add total n))
        (Ok 0) fn.

End Semantics.

(** *** Instances of the emitted struct type *)

Section Shapes.

Context {L : Type} `{Leaf L}.

(** A value of the field type the emitter declares for a member: a leaf of
    Rust type [tn] under as many sequences as there are dimensions, those of
    a constant dimension of the length its decimal literal gives ([len()] is
    a usize). *)
Fixpoint has_shape (tn : string) (dims : list lcm_dimension_t) (v : value L) : bool :=
  match dims, v with
  | [], VLeaf l => bool_decide (leaf_type l = tn)
  | dimension :: dims, VSeq items =>
      match mode dimension with
      | LCM_CONST => bool_decide (length items = EmitRust.sscanf_d (size dimension))
      | LCM_VAR => true
      end
      && bool_decide (Z.of_nat (length items) < 2 ^ 64)
      && forallb (has_shape tn dims) items
  | _, _ => false
  end.

Definition is_count (self : gmap string (value L)) (size : string) : bool :=
  match count_of self size with
  | Ok _ => true
  | _ => false
  end.

(** An instance of the struct: every member has a value of its shape, and
    the size of every variable dimension is an integer field. *)
Definition typed (lcm_struct : lcm_struct_t) (self : gmap string (value L)) : bool :=
  forallb
    (λ member,
       match self !! membername member with
       | Some v =>
           has_shape (EmitRust.map_type_name (type member)) (dimensions member) v
           && forallb (λ dimension,
                         bool_decide (mode dimension = LCM_CONST)
                         || is_count self (size dimension))
                      (dimensions member)
       | None => false
       end)
    (members lcm_struct).

(** Every container met at a variable dimension holds at least the
    declared count of elements. *)
Fixpoint fits (self : gmap string (value L)) (dims : list lcm_dimension_t)
    (v : value L) : bool :=
  match dims, v with
  | [], VLeaf _ => true
  | [], VSeq _ => false
  | dimension :: dims, VSeq items =>
      match mode dimension with
      | LCM_CONST => forallb (fits self dims) items
      | LCM_VAR =>
          match count_of self (size dimension) with
          | Ok count =>
              bool_decide (count ≤ Z.of_nat (length items))
              && forallb (fits self dims) (take (Z.to_nat count) items)
          | _ => false
          end
      end
  | _ :: _, VLeaf _ => false
  end.

(** The leaves the declaration counts: at a variable dimension the first
    [count] elements, at a constant dimension all of them. *)
Fixpoint declared (self : gmap string (value L)) (dims : list lcm_dimension_t)
    (v : value L) : list L :=
  match dims, v with
  | [], VLeaf l => [l]
  | dimension :: dims, VSeq items =>
      flat_map (declared self dims)
        match mode dimension with
        | LCM_CONST => items
        | LCM_VAR =>
            match count_of self (size dimension) with
            | Ok count => take (Z.to_nat count) items
            | _ => []
            end
        end
  | _, _ => []
  end.

Definition leaf_bytes (l : L) : list Byte.byte :=
  match leaf_encode l with
  | Ok written => written
  | _ => []
  end.

Definition encodes (l : L) : bool :=
  match leaf_encode l with
  | Ok _ => true
  | _ => false
  end.

(** A member whose containers hold the declared counts and whose counted
    leaves encode, and the bytes of those leaves. *)
Definition member_fits (self : gmap string (value L)) (member : lcm_member_t) : bool :=
  match self !! membername member with
  | Some v =>
      fits self (dimensions member) v
      && forallb encodes (declared self (dimensions member) v)
  | None => false
  end.

Definition member_bytes (self : gmap string (value L)) (member : lcm_member_t)
    : list Byte.byte :=
  match self !! membername member with
  | Some v => flat_map leaf_bytes (declared self (dimensions member) v)
  | None => []
  end.

(** Every container met at a variable dimension holds exactly the declared
    count of elements: the size field is the length. *)
Fixpoint exact (self : gmap string (value L)) (dims : list lcm_dimension_t)
    (v : value L) : bool :=
  match dims, v with
  | [], _ => true
  | dimension :: dims, VSeq items =>
      match mode dimension with
      | LCM_CONST => true
      | LCM_VAR =>
          match self !! size dimension with
          | Some (VLeaf l) => bool_decide (leaf_int l = Some (Z.of_nat (length items)))
          | _ => false
          end
      end
      && forallb (exact self dims) items
  | _ :: _, VLeaf _ => false
  end.

Definition member_exact (self : gmap string (value L)) (member : lcm_member_t) : bool :=
  match self !! membername member with
  | Some v => exact self (dimensions member) v
  | None => false
  end.






End Shapes.

(** What the laws of a [Message] implementation ask of the leaves: [size]
    is the number of bytes [encode] appends, and [decode] at the leaf's type
    reads back what [encode] wrote and leaves the rest of the input. *)
Class LeafLaws (L : Type) `{Leaf L} := {
  leaf_encode_runs : ∀ l : L, leaf_encode l ≠ NoRust;
  leaf_size_encode : ∀ (l : L) written,
    leaf_encode l = Ok written → leaf_size l = Z.of_nat (length written);
  leaf_decode_encode : ∀ (l : L) written rest,
    leaf_encode l = Ok written →
    leaf_decode (leaf_type l) (written ++ rest) = Ok (l, rest)
}.

(** *** What the emitter writes, as these routines *)

Fixpoint enc_loop_of (dims : list lcm_dimension_t) : enc_loop :=
  match dims with
  | [] => EncItem
  | dimension :: dims =>
      if decide (mode dimension = LCM_VAR)
      then EncForTake (size dimension) (enc_loop_of dims)
      else EncFor (enc_loop_of dims)
  end.

Definition encode_fn_of (lcm_struct : lcm_struct_t) : list enc_member :=
  (λ member, {| enc_field := membername member;
                enc_body := enc_loop_of (dimensions member) |})
  <$> members lcm_struct.

(** [previous_const] tells whether the expression stands at the outermost
    level or right inside a constant dimension, where it is followed by
    [?]. *)
Fixpoint dec_expr_of (previous_const : bool) (dims : list lcm_dimension_t) : dec_expr :=
  match dims with
  | [] => DecLeaf previous_const
  | dimension :: dims =>
      match mode dimension with
      | LCM_CONST =>
          DecArray (EmitRust.sscanf_d (size dimension)) (size dimension)
                   (dec_expr_of true dims)
      | LCM_VAR =>
          DecCollect (size dimension) (dec_expr_of false dims) previous_const
      end
  end.

Definition lets_of (ms : list lcm_member_t) : list dec_let :=
  (λ member, {| let_name := membername member;
                let_type := EmitRust.map_type_name (type member);
                let_expr := dec_expr_of true (dimensions member) |}) <$> ms.

Definition decode_fn_of (lcm_struct : lcm_struct_t) : list dec_let :=
  lets_of (members lcm_struct).

Definition size_fn_of (lcm_struct : lcm_struct_t) : list size_term :=
  (λ member, {| size_field := membername member;
                size_ndim := length (dimensions member) |})
  <$> members lcm_struct.

(** *** The text of these routines *)

(** One line at indentation level [n]. *)
Definition line (n : nat) (text : string) : string :=
  EmitRust.spaces (EmitRust.INDENT n) +:+ text +:+ EmitRust.newline.

Fixpoint concat_strings (l : list string) : string :=
  match l with
  | [] => ""
  | x :: l => x +:+ concat_strings l
  end.

Fixpoint render_enc_loop (d : nat) (body : enc_loop) : string :=
  match body with
  | EncItem => line (2 + d) "item.encode(&mut buffer)?;"
  | EncFor body =>
      line (2 + d) "for item in item.iter() {"
      +:+ render_enc_loop (S d) body
      +:+ line (2 + d) "}"
  | EncForTake size body =>
      line (2 + d) ("if self." +:+ size +:+ " as usize > item.len() {")
      +:+ line (2 + d + 1)
            ("return Err(Error::new(ErrorKind::Other, " +:+ EmitRust.dquote
             +:+ "Size is larger than vector" +:+ EmitRust.dquote +:+ "));")
      +:+ line (2 + d) "};"
      +:+ line (2 + d) ("for item in item.iter().take(self." +:+ size +:+ " as usize) {")
      +:+ render_enc_loop (S d) body
      +:+ line (2 + d) "}"
  end.

Definition render_enc_member (m : enc_member) : string :=
  line 2 ("let item = &self." +:+ enc_field m +:+ ";")
  +:+ render_enc_loop 0 (enc_body m).

Definition render_encode_fn (fn : list enc_member) : string :=
  line 1 ("fn encode(&self, "
          +:+ (if decide (length fn = 0%nat) then "_" else "mut buffer")
          +:+ ": &mut Write) -> Result<()> {")
  +:+ concat_strings (render_enc_member <$> fn)
  +:+ line 2 "Ok(())"
  +:+ line 1 "}"
  +:+ line 0 "".

Fixpoint repeat_string (n : nat) (text : string) : string :=
  match n with
  | O => ""
  | S n => text +:+ repeat_string n text
  end.

(** The expression at dimension [dim]; it starts on the line the text
    before it is on. *)
Fixpoint render_dec_expr (dim : nat) (e : dec_expr) : string :=
  match e with
  | DecLeaf question =>
      EmitRust.newline
      +:+ EmitRust.spaces (EmitRust.INDENT (3 + dim)) +:+ "Message::decode(&mut buffer)"
      +:+ (if question then "?" else "")
  | DecArray n _ elem =>
      "["
      +:+ repeat_string n (render_dec_expr (dim + 1) elem +:+ ",")
      +:+ EmitRust.newline
      +:+ EmitRust.spaces (EmitRust.INDENT (2 + dim)) +:+ "]"
  | DecCollect size body question =>
      EmitRust.newline
      +:+ EmitRust.spaces (EmitRust.INDENT (3 + dim))
      +:+ "(0.." +:+ size +:+ ").map(|_| {"
      +:+ render_dec_expr (dim + 1) body
      +:+ EmitRust.newline
      +:+ EmitRust.spaces (EmitRust.INDENT (3 + dim)) +:+ "}).collect::<Result<_>>()"
      +:+ (if question then "?" else "")
  end.

Definition render_dec_let (l : dec_let) : string :=
  EmitRust.spaces (EmitRust.INDENT 2) +:+ "let " +:+ let_name l +:+ " = "
  +:+ render_dec_expr 0 (let_expr l)
  +:+ ";" +:+ EmitRust.newline
  +:+ line 0 "".

Definition render_decode_fn (type_name : string) (fn : list dec_let) : string :=
  line 1 ("fn decode("
          +:+ (if decide (length fn = 0%nat) then "_" else "mut buffer")
          +:+ ": &mut Read) -> Result<Self> {")
  +:+ concat_strings (render_dec_let <$> fn)
  +:+ line 2 ("Ok(" +:+ type_name +:+ " {")
  +:+ concat_strings ((λ l, line 3 (let_name l +:+ ": " +:+ let_name l +:+ ",")) <$> fn)
  +:+ line 2 "})"
  +:+ line 1 "}"
  +:+ line 0 "".

Definition render_size_term (t : size_term) : string :=
  EmitRust.spaces (EmitRust.INDENT 2) +:+ "+ self." +:+ size_field t
  +:+ match size_ndim t with
      | O => ".size()" +:+ EmitRust.newline
      | S further =>
          ".iter()"
          +:+ repeat_string further ".flat_map(IntoIterator::into_iter)"
          +:+ ".map(Message::size).sum::<usize>()" +:+ EmitRust.newline
      end.

Definition render_size_fn (fn : list size_term) : string :=
  line 1 "fn size(&self) -> usize {"
  +:+ line 2 "0"
  +:+ concat_strings (render_size_term <$> fn)
  +:+ line 1 "}".

End Rust.

(** ** The parser's side (lcmgen.c) *)

Module Lcmgen.

(** Modelled from the spec: [lcm_is_primitive_type] of lcmgen.c, which is
    not among the sources; the primitive type names are those the data model
    lists (boolean, byte, the signed and unsigned integers of 8 to 64 bits,
    float, double, string), spelled as [map_lcm_primitive] spells them. *)
Definition lcm_is_primitive_type (t : string) : bool :=
  bool_decide (t ∈ ["boolean"; "string"; "byte"; "int8_t"; "int16_t"; "int32_t";
                    "int64_t"; "uint8_t"; "uint16_t"; "uint32_t"; "uint64_t";
                    "float"; "double"]).

End Lcmgen.

(** ** The specification's words *)

Module Spec.

(** Splitting on underscore: the segments between underscores, empty ones
    included. *)
Fixpoint split_underscore (s : string) : list string :=
  match s with
  | "" => [""]
  | String ch rest =>
      if is_underscore ch then "" :: split_underscore rest
      else match split_underscore rest with
           | seg :: segs => String ch seg :: segs
           | [] => [String ch ""]
           end
  end.

Fixpoint lower_all (s : string) : string :=
  match s with
  | "" => ""
  | String ch rest => String (tolower ch) (lower_all rest)
  end.

(** The first letter capitalised, the remainder lower-cased. *)
Definition capitalize_segment (seg : string) : string :=
  match seg with
  | "" => ""
  | String ch rest => String (toupper ch) (lower_all rest)
  end.

Fixpoint concat_segments (segs : list string) : string :=
  match segs with
  | [] => ""
  | seg :: segs => seg +:+ concat_segments segs
  end.

Definition toUpperCamel (identifier : string) : string :=
  concat_segments (capitalize_segment <$> split_underscore identifier).

(** The struct types a struct refers to as the base type of a member, each
    of them once: primitive types and the struct's own type left out. *)
Definition distinct_struct_types (lcm_is_primitive_type : string → bool)
    (lcm_struct : lcm_struct_t) : list lcm_typename_t :=
  remove_dups
    (type <$> filter (λ lm, EmitRust.refers_to_other_struct
                              lcm_is_primitive_type lcm_struct lm = true)
                     (members lcm_struct)).

(** The composed hash of the specification: the base hash plus the hash of
    every distinct struct type referred to, once each. *)
Definition composed_hash_distinct (lcm_is_primitive_type : string → bool)
    (type_hash : string → Z) (lcm_struct : lcm_struct_t) : Z :=
  wrap_u64 (hash lcm_struct +
            sum_Z ((λ t, type_hash (EmitRust.map_type_name t)) <$>
                   distinct_struct_types lcm_is_primitive_type lcm_struct)).

(** A 64-bit value rotated left by one bit. *)
Definition rotate_left_1 (h : Z) : Z :=
  Z.lor (Z.land (Z.shiftl h 1) (Z.ones 64)) (Z.shiftr h 63).

(** No upper-case letter except where a segment starts: the identifiers
    whose characters after a segment's first one are left alone by
    [tolower]. *)
Fixpoint lower_after_first (segment_start : bool) (s : string) : bool :=
  match s with
  | "" => true
  | String ch rest =>
      if is_underscore ch then lower_after_first true rest
      else if segment_start then lower_after_first false rest
      else negb (is_upper ch) && lower_after_first false rest
  end.

(** How often a character occurs in a string. *)
Fixpoint count_char (c : ascii) (s : string) : nat :=
  match s with
  | "" => O
  | String ch rest => ((if bool_decide (ch = c) then 1 else 0) + count_char c rest)%nat
  end.

(** The pieces of a string between the occurrences of a separator. *)
Fixpoint split_on (sep : ascii) (s : string) : list string :=
  match s with
  | "" => [""]
  | String ch rest =>
      if bool_decide (ch = sep) then "" :: split_on sep rest
      else match split_on sep rest with
           | piece :: pieces => String ch piece :: pieces
           | [] => [String ch ""]
           end
  end.

(** The pieces of a list, with a separator between them. *)
Fixpoint join (sep : string) (pieces : list string) : string :=
  match pieces with
  | [] => ""
  | [piece] => piece
  | piece :: pieces => piece +:+ sep +:+ join sep pieces
  end.

(** The Rust type of a member: an array for a constant dimension, a [Vec]
    for a variable one, the outermost dimension outermost. *)
Fixpoint rust_field_type (dims : list lcm_dimension_t) (element : string) : string :=
  match dims with
  | [] => element
  | dimension :: dims =>
      match mode dimension with
      | LCM_CONST => "[" +:+ rust_field_type dims element +:+ "; " +:+ size dimension +:+ "]"
      | LCM_VAR => "Vec<" +:+ rust_field_type dims element +:+ ">"
      end
  end.

(** The directories above a file: for every '/' of the path, the part of
    the path before it, the shortest first. *)
Fixpoint parents_from (before rest : string) : list string :=
  match rest with
  | "" => []
  | String c rest =>
      if bool_decide (c = "/"%char)
      then before :: parents_from (before +:+ String c "") rest
      else parents_from (before +:+ String c "") rest
  end.

Definition parents (path : string) : list string := parents_from "" path.

(** No '/' directly after a '/'. *)
Fixpoint no_double_slash (s : string) : bool :=
  match s with
  | String c1 (String c2 _ as rest) =>
      negb (bool_decide (c1 = "/"%char) && bool_decide (c2 = "/"%char))
      && no_double_slash rest
  | _ => true
  end.

(** The types of a list in their order, each type name at its first
    occurrence only; [seen] are the type names met before the list. *)
Fixpoint first_uses (seen : list string) (types : list lcm_typename_t)
    : list lcm_typename_t :=
  match types with
  | [] => []
  | t :: types =>
      if bool_decide (lctypename t ∈ seen) then first_uses seen types
      else t :: first_uses (lctypename t :: seen) types
  end.

(** The line that brings a struct type into scope. *)
Definition use_line (t : lcm_typename_t) : string :=
  Rust.line 0 ("use " +:+ EmitRust.dots_to_double_colons (package t) +:+ "::"
               +:+ EmitRust.map_type_name t +:+ ";").

(** The files a run leaves, when it writes the files of [written], removes
    the paths of [removed] and leaves every other file as it was. *)
Definition rebuilt (written : gmap string string) (removed : gset string)
    (before after : gmap string string) : Prop :=
  ∀ path, after !! path =
          match written !! path with
          | Some text => Some text
          | None => if decide (path ∈ removed) then None else before !! path
          end.

(** The number a string of hexadecimal digits denotes. *)
Definition hex_digit_value (c : ascii) : option Z :=
  let n := Z.of_N (N_of_ascii c) in
  if decide (48 ≤ n ≤ 57) then Some (n - 48)
  else if decide (97 ≤ n ≤ 102) then Some (n - 87)
  else None.

Fixpoint hex_value_from (acc : Z) (s : string) : option Z :=
  match s with
  | "" => Some acc
  | String c rest => d ← hex_digit_value c; hex_value_from (16 * acc + d) rest
  end.

Definition hex_value (s : string) : option Z := hex_value_from 0 s.

(** A nest of [GenericArray] types, the first size that of the outermost
    one. *)
Fixpoint generic_array_type (sizes : list string) (element : string) : string :=
  match sizes with
  | [] => element
  | outermost :: sizes =>
      "GenericArray<" +:+ generic_array_type sizes element
      +:+ ", typenum::U" +:+ outermost +:+ ">"
  end.

End Spec.

(** ** Sample schemas *)

Definition typename_of (pkg short : string) : lcm_typename_t :=
  {| lctypename := if String.eqb pkg "" then short else pkg +:+ "." +:+ short;
     package := pkg; shortname := short |}.

Definition scalar_member (t : lcm_typename_t) (name : string) : lcm_member_t :=
  {| type := t; membername := name; dimensions := []; comment := None |}.

Definition array_member (t : lcm_typename_t) (name : string)
    (dims : list lcm_dimension_t) : lcm_member_t :=
  {| type := t; membername := name; dimensions := dims; comment := None |}.

(** struct segment_t { pose_t from; pose_t to[2]; } *)
Definition segment_t : lcm_struct_t :=
  {| structname := typename_of "" "segment_t";
     members := [ scalar_member (typename_of "" "pose_t") "from";
                  array_member (typename_of "" "pose_t") "to"
                    [ {| mode := LCM_CONST; size := "2" |} ] ];
     hash := 0 |}.

(** struct node_t { int32_t n; node_t next[n]; pose_t at; } *)
Definition node_t : lcm_struct_t :=
  {| structname := typename_of "" "node_t";
     members := [ scalar_member (typename_of "" "int32_t") "n";
                  array_member (typename_of "" "node_t") "next"
                    [ {| mode := LCM_VAR; size := "n" |} ];
                  scalar_member (typename_of "" "pose_t") "at" ];
     hash := 1 |}.

(** struct ping_t { pong_t other; } and struct pong_t { ping_t other; } *)
Definition ping_t : lcm_struct_t :=
  {| structname := typename_of "" "ping_t";
     members := [ scalar_member (typename_of "" "pong_t") "other" ];
     hash := 1 |}.

Definition pong_t : lcm_struct_t :=
  {| structname := typename_of "" "pong_t";
     members := [ scalar_member (typename_of "" "ping_t") "other" ];
     hash := 2 |}.

(** struct pose_t { } *)
Definition pose_t : lcm_struct_t :=
  {| structname := typename_of "" "pose_t"; members := []; hash := 3 |}.

(** ** Sample leaves: an i32 and a u8

    The values are kept as the bytes they are written as, the most
    significant first. *)

Inductive sample_leaf :=
  | I32 (b3 b2 b1 b0 : Byte.byte)
  | U8 (b : Byte.byte).

Definition byte_value (b : Byte.byte) : Z := Z.of_N (Byte.to_N b).

Definition i32_value (b3 b2 b1 b0 : Byte.byte) : Z :=
  let u := ((byte_value b3 * 256 + byte_value b2) * 256 + byte_value b1) * 256
           + byte_value b0 in
  if decide (u < 2 ^ 31) then u else u - 2 ^ 32.

Definition byte_of (z : Z) : Byte.byte :=
  default Byte.x00 (Byte.of_N (Z.to_N (z mod 256))).

Definition i32 (z : Z) : sample_leaf :=
  I32 (byte_of (z / 2 ^ 24)) (byte_of (z / 2 ^ 16)) (byte_of (z / 2 ^ 8)) (byte_of z).

Definition u8 (z : Z) : sample_leaf := U8 (byte_of z).

Global Instance sample_leaf_Leaf : Rust.Leaf sample_leaf := {|
  Rust.leaf_type l := match l with I32 _ _ _ _ => "i32" | U8 _ => "u8" end;
  Rust.leaf_int l :=
    match l with
    | I32 b3 b2 b1 b0 => Some (i32_value b3 b2 b1 b0)
    | U8 b => Some (byte_value b)
    end;
  Rust.leaf_encode l :=
    match l with
    | I32 b3 b2 b1 b0 => Rust.Ok [b3; b2; b1; b0]
    | U8 b => Rust.Ok [b]
    end;
  Rust.leaf_decode tn input :=
    if String.eqb tn "i32" then
      match input with
      | b3 :: b2 :: b1 :: b0 :: rest => Rust.Ok (I32 b3 b2 b1 b0, rest)
      | _ => Rust.Err Rust.IoError
      end
    else if String.eqb tn "u8" then
      match input with
      | b :: rest => Rust.Ok (U8 b, rest)
      | _ => Rust.Err Rust.IoError
      end
    else Rust.NoRust;
  Rust.leaf_size l := match l with I32 _ _ _ _ => 4 | U8 _ => 1 end
|}.

Definition var_dim (size_field : string) : lcm_dimension_t :=
  {| mode := LCM_VAR; size := size_field |}.

Definition const_dim (literal : string) : lcm_dimension_t :=
  {| mode := LCM_CONST; size := literal |}.

(** struct blob_t { int32_t count; byte data[count]; } *)
Definition blob_t : lcm_struct_t :=
  {| structname := typename_of "" "blob_t";
     members := [ scalar_member (typename_of "" "int32_t") "count";
                  array_member (typename_of "" "byte") "data" [var_dim "count"] ];
     hash := 7 |}.

(** struct late_count_t { byte data[count]; int32_t count; }: the size field
    after the member that depends on it. *)
Definition late_count_t : lcm_struct_t :=
  {| structname := typename_of "" "late_count_t";
     members := [ array_member (typename_of "" "byte") "data" [var_dim "count"];
                  scalar_member (typename_of "" "int32_t") "count" ];
     hash := 7 |}.

(** struct grid_t { int32_t n; int32_t rows[n][3]; byte pair[2][n]; } *)
Definition grid_t : lcm_struct_t :=
  {| structname := typename_of "" "grid_t";
     members := [ scalar_member (typename_of "" "int32_t") "n";
                  array_member (typename_of "" "int32_t") "rows" [var_dim "n"; const_dim "3"];
                  array_member (typename_of "" "byte") "pair" [const_dim "2"; var_dim "n"] ];
     hash := 9 |}.


Definition blob (count : Z) (data : list Z) : gmap string (Rust.value sample_leaf) :=
  {[ "count" := Rust.VLeaf (i32 count);
     "data" := Rust.VSeq ((λ z, Rust.VLeaf (u8 z)) <$> data) ]}.


(** ** Sample package: two structs of package nav, and a file system

    package nav;
    struct pose_t { int32_t n; }
    struct path_t { const int32_t MAX = 8; nav.pose_t poses[2]; } *)

Definition nav_pose_t : LcmStruct.t :=
  {| LcmStruct.fields :=
       {| structname := typename_of "nav" "pose_t";
          members := [ scalar_member (typename_of "" "int32_t") "n" ];
          hash := 3 |};
     LcmStruct.comment := Some "A pose.";
     LcmStruct.constants := [] |}.

Definition nav_path_t : LcmStruct.t :=
  {| LcmStruct.fields :=
       {| structname := typename_of "nav" "path_t";
          members := [ array_member (typename_of "nav" "pose_t") "poses" [const_dim "2"] ];
          hash := 4 |};
     LcmStruct.comment := None;
     LcmStruct.constants :=
       [ {| LcmConstant.lctypename := "int32_t"; LcmConstant.membername := "MAX";
            LcmConstant.val_str := "8"; LcmConstant.comment := None |} ] |}.

(** A struct named pose next to pose_t: both go to pose.rs. *)
Definition nav_pose : lcm_struct_t :=
  {| structname := typename_of "nav" "pose"; members := []; hash := 5 |}.

(** A module file left by an earlier run, and a file of the user's. *)
Definition stale_world : EmitRust.world :=
  {| EmitRust.files := {[ "./nav/mod.rs" := "pub mod gone;"; "./notes.txt" := "keep" ]};
     EmitRust.events := [] |}.

(** A member is a constant-size array when all its dimensions are. *)
Definition all_dimensions_const (lm : lcm_member_t) : bool :=
  forallb (λ dimension, bool_decide (mode dimension = LCM_CONST)) (dimensions lm).

(** * Properties *)

(** ** Identifier transforms *)

Example strip_pose_t : EmitRust.strip_underscore_t "pose_t" = "pose".
Proof. reflexivity. Qed.

Example strip_short : EmitRust.strip_underscore_t "t" = "t".
Proof. reflexivity. Qed.

Example strip_only_suffix : EmitRust.strip_underscore_t "_t" = "".
Proof. reflexivity. Qed.

Example strip_inner : EmitRust.strip_underscore_t "a_tb_t" = "a_tb".
Proof. reflexivity. Qed.

Example camel_sensor_data : Spec.toUpperCamel "sensor_data" = "SensorData".
Proof. reflexivity. Qed.

Section IdentifierFacts.

Import EmitRust.

Lemma strip_underscore_t_cons (c : ascii) (rest : string) :
  strip_underscore_t (String c rest) =
  if bool_decide (String c rest = "_t") then "" else String c (strip_underscore_t rest).
Proof.
  destruct rest as [|d rest].
  { by case_bool_decide. }
  destruct rest as [|e rest].
  { unfold strip_underscore_t; simpl.
    repeat case_bool_decide; simplify_eq/=; try done; congruence. }
  rewrite bool_decide_eq_false_2 by discriminate.
  unfold strip_underscore_t.
  cbn [String.length].
  replace (S (S (S (String.length rest))) <? 2)%nat with false
    by (symmetry; apply Nat.ltb_ge; lia).
  replace (S (S (String.length rest)) <? 2)%nat with false
    by (symmetry; apply Nat.ltb_ge; lia).
  replace (S (S (S (String.length rest))) - 2)%nat with (S (String.length rest)) by lia.
  replace (S (S (S (String.length rest))) - 1)%nat with (S (S (String.length rest))) by lia.
  replace (S (S (String.length rest)) - 2)%nat with (String.length rest) by lia.
  replace (S (S (String.length rest)) - 1)%nat with (S (String.length rest)) by lia.
  cbn [String.get String.substring].
  by destruct (_ && _).
Qed.

Lemma append_cons (c : ascii) (s1 s2 : string) :
  String c s1 +:+ s2 = String c (s1 +:+ s2).
Proof. reflexivity. Qed.

Lemma append_empty_l (s : string) : "" +:+ s = s.
Proof. reflexivity. Qed.

Lemma convert_to_camel_case_split (s : string) :
  ∃ seg segs, Spec.split_underscore s = seg :: segs ∧
    convert_to_camel_case true s =
      Spec.concat_segments (Spec.capitalize_segment <$> seg :: segs) ∧
    convert_to_camel_case false s =
      Spec.lower_all seg +:+ Spec.concat_segments (Spec.capitalize_segment <$> segs).
Proof.
  induction s as [|ch rest (seg & segs & Hsplit & Htrue & Hfalse)].
  { by exists "", []. }
  cbn [Spec.split_underscore convert_to_camel_case].
  destruct (is_underscore ch).
  - exists "", (seg :: segs). by rewrite Hsplit, Htrue.
  - exists (String ch seg), segs. by rewrite Hsplit, Hfalse.
Qed.

(** C9.  The camel-case loop of [make_rust_type_name] is the transform the
    specification words: the identifier is split on underscore, the first
    letter of each segment is capitalised, the remainder of the segment is
    lower-cased, and the segments are concatenated with no separator.  The
    type name of the emitter is this transform of the short name (after its
    "_t" suffix has been cut), and "foo_bar" becomes "FooBar". *)
Theorem camel_case_transform :
  (∀ identifier : string,
     convert_to_camel_case true identifier = Spec.toUpperCamel identifier) ∧
  (∀ typename : lcm_typename_t,
     make_rust_type_name typename =
     Spec.toUpperCamel (strip_underscore_t (shortname typename))) ∧
  (∀ lct pkg : string,
     make_rust_type_name {| lctypename := lct; package := pkg; shortname := "foo_bar" |}
     = "FooBar").
Proof.
  assert (∀ s, convert_to_camel_case true s = Spec.toUpperCamel s) as Hloop.
  { intros s. destruct (convert_to_camel_case_split s) as (seg & segs & Hs & Ht & _).
    unfold Spec.toUpperCamel. by rewrite Hs. }
  split; [done|]. split; [|done].
  intros typename. unfold make_rust_type_name. apply Hloop.
Qed.

Lemma tolower_fixed (ch : ascii) : tolower ch = ch ↔ is_upper ch = false.
Proof.
  unfold tolower. destruct (is_upper ch) eqn:Hup; [|done].
  split; [|done]. intros Heq.
  apply (f_equal N_of_ascii) in Heq.
  unfold is_upper in Hup. apply andb_true_iff in Hup as [Hlo%N.leb_le Hhi%N.leb_le].
  rewrite N_ascii_embedding in Heq by lia. lia.
Qed.

Lemma length_convert_to_camel_case (b b' : bool) (s : string) :
  String.length (convert_to_camel_case b s) =
  String.length (Gen0.make_rust_type_name_from b' s).
Proof.
  revert b b'. induction s as [|ch rest IH]; intros b b'; [done|].
  cbn [convert_to_camel_case Gen0.make_rust_type_name_from].
  destruct (is_underscore ch); [apply IH|].
  destruct b, b'; cbn [String.length]; f_equal; apply IH.
Qed.

Lemma strip_underscore_t_cases (s : string) :
  strip_underscore_t s = s ∨ s = strip_underscore_t s +:+ "_t".
Proof.
  induction s as [|c rest IH]; [by left|].
  rewrite strip_underscore_t_cons. case_bool_decide as Hst.
  - right. by rewrite Hst.
  - destruct IH as [->|IH]; [by left|right].
    by rewrite append_cons, <-IH.
Qed.

Lemma gen0_append_suffix (b : bool) (s : string) :
  Gen0.make_rust_type_name_from b (s +:+ "_t") =
  Gen0.make_rust_type_name_from b s +:+ "T".
Proof.
  revert b. induction s as [|ch rest IH]; intros b; [done|].
  rewrite append_cons. cbn [Gen0.make_rust_type_name_from].
  destruct (is_underscore ch); [apply IH|].
  destruct b; rewrite append_cons; f_equal; apply IH.
Qed.

Lemma length_append (s1 s2 : string) :
  String.length (s1 +:+ s2) = (String.length s1 + String.length s2)%nat.
Proof.
  induction s1 as [|c s1 IH]; [done|].
  rewrite append_cons. cbn [String.length]. rewrite IH. lia.
Qed.

Lemma generations_agree_iff_lower (b : bool) (s : string) :
  Gen0.make_rust_type_name_from b s = convert_to_camel_case b s ↔
  Spec.lower_after_first b s = true.
Proof.
  revert b. induction s as [|ch rest IH]; intros b; [done|].
  cbn [Gen0.make_rust_type_name_from convert_to_camel_case Spec.lower_after_first].
  destruct (is_underscore ch); [apply IH|].
  destruct b.
  - rewrite <-IH. split; [by intros [=]|by intros ->].
  - rewrite andb_true_iff, negb_true_iff, <-IH, <-tolower_fixed.
    split; [intros [= Hch Hrest]|intros [Hch Hrest]]; [done|].
    by rewrite Hch, Hrest.
Qed.

(** C10, as the code has it.  The older [make_rust_type_name] neither cuts
    the "_t" suffix nor lower-cases anything, so the two generations return
    the same string exactly for the identifiers that [strip_underscore_t]
    leaves alone and that have no upper-case letter after the first
    character of a segment. *)
Theorem generations_agree_iff (lct pkg input : string) :
  Gen0.make_rust_type_name input =
    make_rust_type_name {| lctypename := lct; package := pkg; shortname := input |}
  ↔ strip_underscore_t input = input ∧ Spec.lower_after_first true input = true.
Proof.
  unfold Gen0.make_rust_type_name, make_rust_type_name. cbn [shortname].
  destruct (strip_underscore_t_cases input) as [Hsame|Hsuffix].
  - rewrite Hsame, generations_agree_iff_lower. tauto.
  - split.
    + intros Heq. exfalso. apply (f_equal String.length) in Heq.
      rewrite Hsuffix, gen0_append_suffix, length_append in Heq at 1.
      rewrite (length_convert_to_camel_case true true) in Heq.
      cbn [String.length] in Heq. lia.
    + intros [Hsame _]. exfalso. apply (f_equal String.length) in Hsuffix.
      rewrite Hsame, length_append in Hsuffix. cbn [String.length] in Hsuffix. lia.
Qed.

(** C10 fails as stated: on "pose_t" the older transform gives "PoseT" and
    the newer one "Pose"; on "fooBar" they give "FooBar" and "Foobar". *)
Lemma generations_differ :
  Gen0.make_rust_type_name "pose_t" = "PoseT" ∧
  make_rust_type_name {| lctypename := "pose_t"; package := ""; shortname := "pose_t" |}
    = "Pose" ∧
  Gen0.make_rust_type_name "fooBar" = "FooBar" ∧
  make_rust_type_name {| lctypename := "fooBar"; package := ""; shortname := "fooBar" |}
    = "Foobar" ∧
  ¬ (∀ input : string,
       Gen0.make_rust_type_name input =
       make_rust_type_name {| lctypename := input; package := ""; shortname := input |}).
Proof.
  repeat split; try reflexivity.
  intros Hall. specialize (Hall "pose_t"). vm_compute in Hall. discriminate.
Qed.

End IdentifierFacts.

(** ** The published fingerprint *)

Section Fingerprint.

Lemma lor_even_bit (x : Z) (b : bool) : Z.lor (2 * x) (Z.b2z b) = 2 * x + Z.b2z b.
Proof.
  apply Z.bits_inj'. intros n Hn.
  rewrite Z.lor_spec.
  destruct (decide (n = 0)) as [->|Hne].
  - rewrite Z.testbit_0_r, Z.testbit_even_0. by destruct b.
  - replace n with (Z.succ (n - 1)) by lia.
    rewrite Z.testbit_succ_r, Z.testbit_even_succ by lia.
    destruct b; cbn [Z.b2z].
    + rewrite (Z.testbit_odd_succ 0) by lia.
      rewrite Z.testbit_0_l. apply orb_false_r.
    + rewrite Z.testbit_0_l. apply orb_false_r.
Qed.

Lemma u64_shl_1 (h : Z) : u64_shl h 1 = 2 * (h mod 2 ^ 63).
Proof.
  unfold u64_shl, wrap_u64, u64_modulus.
  rewrite Z.shiftl_mul_pow2 by lia.
  change (2 ^ 64) with (2 * 2 ^ 63). change (2 ^ 1) with 2.
  rewrite (Z.mul_comm h 2). by rewrite Z.mul_mod_distr_l by lia.
Qed.

Lemma top_bit_u64 (h : Z) :
  0 ≤ h < 2 ^ 64 → Z.land (u64_shr h 63) 1 = Z.b2z (Z.testbit h 63).
Proof.
  intros Hh. unfold u64_shr.
  change 1 with (Z.ones 1) at 1. rewrite Z.land_ones by lia.
  rewrite Z.testbit_spec' by lia. by rewrite Z.shiftr_div_pow2 by lia.
Qed.

Lemma rotate_left_1_sum (h : Z) :
  0 ≤ h < 2 ^ 64 →
  Spec.rotate_left_1 h = 2 * (h mod 2 ^ 63) + Z.b2z (Z.testbit h 63).
Proof.
  intros Hh. unfold Spec.rotate_left_1.
  rewrite Z.land_ones by lia.
  pose proof (u64_shl_1 h) as Hshl.
  unfold u64_shl, wrap_u64, u64_modulus in Hshl. rewrite Hshl.
  pose proof (top_bit_u64 h Hh) as Htop. unfold u64_shr in Htop.
  assert (Z.shiftr h 63 = Z.b2z (Z.testbit h 63)) as ->.
  { rewrite <-Htop. change 1 with (Z.ones 1). rewrite Z.land_ones by lia.
    rewrite Z.shiftr_div_pow2 by lia. symmetry. apply Z.mod_small.
    split; [apply Z.div_pos; lia|]. apply Z.div_lt_upper_bound; lia. }
  apply lor_even_bit.
Qed.

(** C7.  For a 64-bit value [h] the emitted expression
    [(hash << 1) + ((hash >> 63) & 1)] has a value (the addition does not
    overflow), and the value is [h] rotated left by one bit: bit 0 of the
    result is bit 63 of [h], and bit i is bit i-1 of [h]. *)
Theorem fingerprint_expr_rotates (h : Z) :
  0 ≤ h < 2 ^ 64 →
  ∃ r, Rust.fingerprint_expr h = Some r ∧
       r = Spec.rotate_left_1 h ∧
       0 ≤ r < 2 ^ 64 ∧
       Z.testbit r 0 = Z.testbit h 63 ∧
       ∀ i, 1 ≤ i < 64 → Z.testbit r i = Z.testbit h (i - 1).
Proof.
  intros Hh.
  exists (2 * (h mod 2 ^ 63) + Z.b2z (Z.testbit h 63)).
  pose proof (Z.mod_pos_bound h (2 ^ 63) ltac:(lia)) as Hlow.
  assert (0 ≤ Z.b2z (Z.testbit h 63) ≤ 1) as Hbit by (destruct (Z.testbit h 63); simpl; lia).
  split; [|split; [|split; [|split]]].
  - unfold Rust.fingerprint_expr, u64_add.
    rewrite u64_shl_1, top_bit_u64 by done.
    unfold u64_modulus. rewrite decide_True; [done|lia].
  - by rewrite rotate_left_1_sum.
  - lia.
  - apply Z.testbit_0_r.
  - intros i Hi. replace i with (Z.succ (i - 1)) at 1 by lia.
    rewrite Z.testbit_succ_r by lia.
    apply Z.mod_pow2_bits_low. lia.
Qed.

Lemma fingerprint_expr_rotates_witness :
  0 ≤ 2 ^ 63 + 5 < 2 ^ 64 ∧
  ∃ r, Rust.fingerprint_expr (2 ^ 63 + 5) = Some r ∧
       r = Spec.rotate_left_1 (2 ^ 63 + 5) ∧
       0 ≤ r < 2 ^ 64 ∧
       Z.testbit r 0 = Z.testbit (2 ^ 63 + 5) 63 ∧
       ∀ i, 1 ≤ i < 64 → Z.testbit r i = Z.testbit (2 ^ 63 + 5) (i - 1).
Proof.
  split; [lia|]. apply (fingerprint_expr_rotates (2 ^ 63 + 5)). lia.
Defined.

(** X21.  The first generation evaluates the same expression on an i64:
    it has a value for every i64 (the addition does not overflow), and read
    as 64-bit patterns the value is again the rotation by one bit. *)
Lemma fingerprint_expr_i64_rotates (h : Z) :
  - 2 ^ 63 ≤ h < 2 ^ 63 →
  ∃ r, Rust.fingerprint_expr_i64 h = Some r ∧
       wrap_u64 r = Spec.rotate_left_1 (wrap_u64 h).
Proof.
  intros Hh.
  assert (Z.land (i64_shr h 63) 1 = if decide (h < 0) then 1 else 0) as Htop.
  { unfold i64_shr. change 1 with (Z.ones 1) at 1.
    rewrite Z.land_ones, Z.shiftr_div_pow2 by lia.
    change (2 ^ 1) with 2. case_decide; Z.div_mod_to_equations; lia. }
  assert (i64_shl h 1 = wrap_i64 (2 * h)) as Hshl.
  { unfold i64_shl. rewrite Z.shiftl_mul_pow2 by lia. f_equal. lia. }
  unfold Rust.fingerprint_expr_i64, i64_add. rewrite Htop, Hshl.
  assert (0 ≤ wrap_u64 h < 2 ^ 64) as Hu
    by (unfold wrap_u64, u64_modulus; apply Z.mod_pos_bound; lia).
  rewrite (rotate_left_1_sum _ Hu), Z.testbit_spec' by lia.
  unfold wrap_i64, wrap_u64, u64_modulus.
  eexists. split.
  - rewrite decide_True; [done|]. case_decide; Z.div_mod_to_equations; lia.
  - case_decide; Z.div_mod_to_equations; lia.
Qed.

Lemma fingerprint_expr_i64_rotates_witness :
  ∃ r, Rust.fingerprint_expr_i64 (-5) = Some r ∧
       wrap_u64 r = Spec.rotate_left_1 (wrap_u64 (-5)).
Proof. refine (fingerprint_expr_i64_rotates (-5) _). lia. Defined.

Example fingerprint_expr_top_bit : Rust.fingerprint_expr (2 ^ 63 + 5) = Some 11.
Proof. reflexivity. Qed.

End Fingerprint.

(** ** The emitted hash function *)

Section HashEmission.

Import EmitRust.

Variable lcm_is_primitive_type : string → bool.

Lemma append_assoc (a b c : string) : (a +:+ b) +:+ c = a +:+ b +:+ c.
Proof. induction a as [|x a IH]; [done|]. by rewrite !append_cons, IH. Qed.

Lemma append_empty_r (a : string) : a +:+ "" = a.
Proof. induction a as [|x a IH]; [done|]. by rewrite append_cons, IH. Qed.

(** Every emit macro appends to the file. *)
Lemma emit_appends (n : nat) (text : string) (f : string) :
  emit n text f = f +:+ emit n text "".
Proof. done. Qed.

Lemma foldl_emit_filter {A : Type} (P : A → bool) (name : A → string)
    (line : string → string) (l : list A) (f : string) :
  foldl (λ f x, if P x then emit 3 (line (name x)) f else f) f l =
  foldl (λ f tn, emit 3 (line tn) f) f (name <$> filter (λ x, P x = true) l).
Proof.
  revert f. induction l as [|x l IH]; intros f; [done|].
  cbn [foldl]. destruct (P x) eqn:HP.
  - rewrite filter_cons_True by done. cbn [fmap list_fmap foldl]. apply IH.
  - rewrite filter_cons_False by congruence. apply IH.
Qed.

Lemma foldl_emit_appends (line : string → string) (l : list string) (f : string) :
  foldl (λ f tn, emit 3 (line tn) f) f l =
  f +:+ foldl (λ f tn, emit 3 (line tn) f) "" l.
Proof.
  revert f. induction l as [|x l IH]; intros f.
  { by rewrite append_empty_r. }
  cbn [foldl]. rewrite IH, (IH (emit 3 _ "")), (emit_appends _ _ f).
  by rewrite append_assoc.
Qed.

(** The text written by [emit_impl_message_hash] is the rendering of the
    struct's [hash_fn]. *)
Lemma emit_impl_message_hash_renders (lcm_struct : lcm_struct_t) (f : string) :
  emit_impl_message_hash lcm_is_primitive_type lcm_struct f =
  f +:+ Rust.render_hash_fn (Rust.hash_fn_of lcm_is_primitive_type lcm_struct).
Proof.
  unfold emit_impl_message_hash, Rust.render_hash_fn, Rust.hash_fn_of.
  cbn [Rust.hash_literal Rust.hash_terms].
  rewrite (foldl_emit_filter (refers_to_other_struct lcm_is_primitive_type lcm_struct)
             (λ lm, map_type_name (type lm))
             (λ tn, ".wrapping_add(" +:+ tn +:+ "::hash())")).
  rewrite foldl_emit_appends.
  rewrite (foldl_emit_appends _ _ (emit 3 _ _)).
  unfold emit, PRIx64_016. by rewrite !append_assoc.
Qed.

Lemma composed_hash_sum (type_hash : string → Z) (lit : Z) (terms : list string) :
  foldl (λ acc tn, wrapping_add acc (type_hash tn)) lit terms =
  if terms is [] then lit else wrap_u64 (lit + sum_Z (type_hash <$> terms)).
Proof.
  revert lit. induction terms as [|tn terms IH]; intros lit; [done|].
  cbn [foldl]. rewrite IH. unfold wrapping_add, wrap_u64, sum_Z.
  destruct terms as [|tn' terms]; cbn [fmap list_fmap foldr].
  - f_equal. lia.
  - rewrite Zplus_mod_idemp_l. f_equal. lia.
Qed.

Lemma composed_hash_of_struct (type_hash : string → Z) (lcm_struct : lcm_struct_t) :
  Rust.composed_hash type_hash (Rust.hash_fn_of lcm_is_primitive_type lcm_struct) =
  wrap_u64 (hash lcm_struct +
            sum_Z ((λ lm, type_hash (map_type_name (type lm))) <$>
                   filter (λ lm, refers_to_other_struct lcm_is_primitive_type lcm_struct lm = true)
                          (members lcm_struct))).
Proof.
  unfold Rust.composed_hash, Rust.hash_fn_of. cbn [Rust.hash_literal Rust.hash_terms].
  rewrite composed_hash_sum, <-list_fmap_compose.
  destruct (filter _ _) as [|lm l] eqn:Hl; cbn [fmap list_fmap].
  - unfold sum_Z. cbn [foldr]. by rewrite Z.add_0_r.
  - unfold wrap_u64. rewrite Zplus_mod_idemp_l. done.
Qed.

Lemma refers_to_other_struct_spec (lcm_struct : lcm_struct_t) (lm : lcm_member_t) :
  refers_to_other_struct lcm_is_primitive_type lcm_struct lm = true ↔
  lcm_is_primitive_type (lctypename (type lm)) = false ∧
  lctypename (type lm) ≠ lctypename (structname lcm_struct).
Proof.
  unfold refers_to_other_struct.
  rewrite andb_true_iff, !negb_true_iff, String.eqb_neq. done.
Qed.

Lemma fmap_filter_type (g : lcm_typename_t → string) (Q : lcm_typename_t → bool)
    (ms : list lcm_member_t) :
  (λ lm, g (type lm)) <$> filter (λ lm, Q (type lm) = true) ms =
  g <$> filter (λ t, Q t = true) (type <$> ms).
Proof.
  induction ms as [|lm ms IH]; [done|].
  cbn [fmap list_fmap]. destruct (Q (type lm)) eqn:HQ.
  - rewrite !filter_cons_True by done. cbn [fmap list_fmap]. by rewrite <-IH.
  - rewrite !filter_cons_False by congruence. apply IH.
Qed.

Lemma hash_fn_of_types (s s' : lcm_struct_t) :
  structname s' = structname s → hash s' = hash s →
  type <$> members s' = type <$> members s →
  Rust.hash_fn_of lcm_is_primitive_type s' = Rust.hash_fn_of lcm_is_primitive_type s.
Proof.
  intros Hname Hhash. unfold Rust.hash_fn_of. rewrite Hhash.
  generalize (members s) (members s'). intros ms ms' Htypes. f_equal.
  revert ms' Htypes. induction ms as [|lm ms IH]; intros [|lm' ms'] [=]; [done|].
  assert (refers_to_other_struct lcm_is_primitive_type s' lm' =
          refers_to_other_struct lcm_is_primitive_type s lm) as Hsame.
  { unfold refers_to_other_struct. congruence. }
  destruct (refers_to_other_struct lcm_is_primitive_type s lm) eqn:Hrefers.
  - rewrite !filter_cons_True by done. cbn [fmap list_fmap]. f_equal; [congruence|].
    by apply IH.
  - rewrite !filter_cons_False by congruence. by apply IH.
Qed.

(** C8.  A member whose base type is primitive, or is the struct's own
    type, adds nothing to the emitted hash function: the text is the one
    emitted for the struct without that member.  The [wrapping_add] lines are
    exactly those of the members whose type is not primitive and differs
    from the struct's own type, in member order. *)
Theorem no_hash_term_for_primitive_or_self
    (lcm_struct : lcm_struct_t) (pre post : list lcm_member_t) (lm : lcm_member_t)
    (f : string) :
  members lcm_struct = pre ++ lm :: post →
  lcm_is_primitive_type (lctypename (type lm)) = true
    ∨ lctypename (type lm) = lctypename (structname lcm_struct) →
  emit_impl_message_hash lcm_is_primitive_type lcm_struct f =
    emit_impl_message_hash lcm_is_primitive_type
      {| structname := structname lcm_struct; members := pre ++ post;
         hash := hash lcm_struct |} f
  ∧ emit_impl_message_hash lcm_is_primitive_type lcm_struct f =
    f +:+ Rust.render_hash_fn
            {| Rust.hash_literal := wrap_u64 (hash lcm_struct);
               Rust.hash_terms :=
                 (λ m, map_type_name (type m)) <$>
                 filter (λ m, lcm_is_primitive_type (lctypename (type m)) = false
                              ∧ lctypename (type m) ≠ lctypename (structname lcm_struct))
                        (pre ++ post) |}.
Proof.
  intros Hmembers Hlm.
  assert (¬ refers_to_other_struct lcm_is_primitive_type lcm_struct lm = true) as Hskip.
  { rewrite refers_to_other_struct_spec. intros [Hprim Hother].
    destruct Hlm; [congruence|done]. }
  assert (Rust.hash_fn_of lcm_is_primitive_type lcm_struct =
          {| Rust.hash_literal := wrap_u64 (hash lcm_struct);
             Rust.hash_terms :=
               (λ m, map_type_name (type m)) <$>
               filter (λ m, lcm_is_primitive_type (lctypename (type m)) = false
                            ∧ lctypename (type m) ≠ lctypename (structname lcm_struct))
                      (pre ++ post) |}) as Hfn.
  { unfold Rust.hash_fn_of. f_equal. f_equal. rewrite Hmembers.
    rewrite !filter_app, filter_cons_False by done.
    f_equal; apply list_filter_iff; intros m; apply refers_to_other_struct_spec. }
  split.
  - rewrite !emit_impl_message_hash_renders, Hfn.
    unfold Rust.hash_fn_of. cbn [members hash structname].
    rewrite (list_filter_iff
               (λ m, refers_to_other_struct lcm_is_primitive_type
                       {| structname := structname lcm_struct; members := pre ++ post;
                          hash := hash lcm_struct |} m = true)
               (λ m, lcm_is_primitive_type (lctypename (type m)) = false
                     ∧ lctypename (type m) ≠ lctypename (structname lcm_struct))); [done|].
    intros m. by rewrite refers_to_other_struct_spec.
  - by rewrite emit_impl_message_hash_renders, Hfn.
Qed.

(** Where no two of those members share a type, the sum is the one over the
    distinct struct types. *)
Lemma composed_hash_distinct_types (type_hash : string → Z) (s : lcm_struct_t) :
  NoDup (type <$> filter (λ lm, refers_to_other_struct lcm_is_primitive_type s lm = true)
                         (members s)) →
  Rust.composed_hash type_hash (Rust.hash_fn_of lcm_is_primitive_type s) =
  Spec.composed_hash_distinct lcm_is_primitive_type type_hash s.
Proof.
  intros Hnodup. rewrite composed_hash_of_struct.
  unfold Spec.composed_hash_distinct, Spec.distinct_struct_types.
  assert (∀ l : list lcm_typename_t, NoDup l → remove_dups l = l) as Hdups.
  { induction 1 as [|x l Hx Hl IH]; [done|].
    cbn [remove_dups]. destruct (decide_rel (∈) x l) as [Hin|_]; [done|]. by rewrite IH. }
  by rewrite Hdups, <-list_fmap_compose.
Qed.

(** C1, as the code has it.  The block bound to [hash] adds to the base
    hash the hash of the referenced type once for every member whose type is
    a struct type other than the struct's own, so a type used by k members
    is added k times; neither the dimensions nor the names of the members
    matter, only their types in order.  Where no two of those members share
    a type, this is the sum over the distinct struct types referred to. *)
Theorem composed_hash_once_per_member
    (type_hash : string → Z) (s s' : lcm_struct_t) (f : string) :
  structname s' = structname s → hash s' = hash s →
  type <$> members s' = type <$> members s →
  Rust.composed_hash type_hash (Rust.hash_fn_of lcm_is_primitive_type s) =
    wrap_u64 (hash s +
              sum_Z ((λ lm, type_hash (map_type_name (type lm))) <$>
                     filter (λ lm, lcm_is_primitive_type (lctypename (type lm)) = false
                                   ∧ lctypename (type lm) ≠ lctypename (structname s))
                            (members s)))
  ∧ emit_impl_message_hash lcm_is_primitive_type s' f =
    emit_impl_message_hash lcm_is_primitive_type s f
  ∧ (NoDup (type <$> filter (λ lm, lcm_is_primitive_type (lctypename (type lm)) = false
                                   ∧ lctypename (type lm) ≠ lctypename (structname s))
                            (members s)) →
     Rust.composed_hash type_hash (Rust.hash_fn_of lcm_is_primitive_type s) =
     Spec.composed_hash_distinct lcm_is_primitive_type type_hash s).
Proof.
  intros Hname Hhash Htypes.
  assert (filter (λ lm, refers_to_other_struct lcm_is_primitive_type s lm = true) (members s)
          = filter (λ lm, lcm_is_primitive_type (lctypename (type lm)) = false
                          ∧ lctypename (type lm) ≠ lctypename (structname s))
                   (members s)) as Hfilter.
  { apply list_filter_iff. intros m. apply refers_to_other_struct_spec. }
  split; [|split].
  - by rewrite composed_hash_of_struct, Hfilter.
  - by rewrite !emit_impl_message_hash_renders, (hash_fn_of_types s s').
  - rewrite <-Hfilter. apply composed_hash_distinct_types.
Qed.

End HashEmission.

(** C1 fails as stated: for a struct with two members of the one struct
    type [pose_t] the emitted block adds [Pose::hash()] twice, where the
    claim has it added once. *)
Lemma composed_hash_counts_every_member :
  EmitRust.emit_impl_message_hash Lcmgen.lcm_is_primitive_type segment_t "" =
    Rust.render_hash_fn {| Rust.hash_literal := 0; Rust.hash_terms := ["Pose"; "Pose"] |}
  ∧ Rust.composed_hash (λ _, 1) (Rust.hash_fn_of Lcmgen.lcm_is_primitive_type segment_t) = 2
  ∧ Spec.composed_hash_distinct Lcmgen.lcm_is_primitive_type (λ _, 1) segment_t = 1.
Proof. by vm_compute. Qed.

Lemma composed_hash_once_per_member_witness :
  let s' := {| structname := structname node_t;
               members := [ scalar_member (typename_of "" "int32_t") "count";
                            scalar_member (typename_of "" "node_t") "self";
                            array_member (typename_of "" "pose_t") "poses"
                              [ {| mode := LCM_VAR; size := "count" |} ] ];
               hash := 1 |} in
  Rust.composed_hash (λ _, 5) (Rust.hash_fn_of Lcmgen.lcm_is_primitive_type node_t) =
    wrap_u64 (1 + sum_Z [5])
  ∧ EmitRust.emit_impl_message_hash Lcmgen.lcm_is_primitive_type s' "" =
    EmitRust.emit_impl_message_hash Lcmgen.lcm_is_primitive_type node_t ""
  ∧ Rust.composed_hash (λ _, 5) (Rust.hash_fn_of Lcmgen.lcm_is_primitive_type node_t) =
    Spec.composed_hash_distinct Lcmgen.lcm_is_primitive_type (λ _, 5) node_t.
Proof.
  refine (let H := composed_hash_once_per_member Lcmgen.lcm_is_primitive_type (λ _, 5)
                     node_t _ "" eq_refl eq_refl eq_refl in
          conj (proj1 H) (conj (proj1 (proj2 H)) (proj2 (proj2 H) _))).
  refine (bool_decide_eq_true_1 (NoDup _) _). by vm_compute.
Defined.

Lemma no_hash_term_for_primitive_or_self_witness :
  EmitRust.emit_impl_message_hash Lcmgen.lcm_is_primitive_type node_t "" =
    EmitRust.emit_impl_message_hash Lcmgen.lcm_is_primitive_type
      {| structname := structname node_t;
         members := [ scalar_member (typename_of "" "int32_t") "n";
                      scalar_member (typename_of "" "pose_t") "at" ];
         hash := 1 |} ""
  ∧ EmitRust.emit_impl_message_hash Lcmgen.lcm_is_primitive_type node_t "" =
    Rust.render_hash_fn {| Rust.hash_literal := 1; Rust.hash_terms := ["Pose"] |}.
Proof.
  exact (no_hash_term_for_primitive_or_self Lcmgen.lcm_is_primitive_type node_t
           [scalar_member (typename_of "" "int32_t") "n"]
           [scalar_member (typename_of "" "pose_t") "at"]
           (array_member (typename_of "" "node_t") "next"
              [ {| mode := LCM_VAR; size := "n" |} ])
           "" eq_refl (or_intror eq_refl)).
Defined.

(** ** The emitted encode routine *)

Section EncodeFacts.

Import Rust.

Context {L : Type} `{LeafLaws L}.

Implicit Types (self : gmap string (value L)) (v item : value L)
  (items : list (value L)) (buffer out : list Byte.byte)
  (dims : list lcm_dimension_t).

Lemma bind_ok_inv {A B : Type} (m : outcome A) (k : A → outcome B) (b : B) :
  m ≫= k = Ok b ↔ ∃ a, m = Ok a ∧ k a = Ok b.
Proof.
  destruct m as [a|e|]; cbn.
  - split; [by exists a|]. by intros (a' & [= ->] & ?).
  - split; [done|]. by intros (a' & ? & ?).
  - split; [done|]. by intros (a' & ? & ?).
Qed.

(** A loop over items whose body appends the bytes of the leaves it
    counts. *)
Lemma for_each_spec (body : value L → list Byte.byte → outcome (list Byte.byte))
    (F : value L → bool) (D : value L → list L) :
  (∀ item buffer out,
     body item buffer = Ok out ↔
     F item = true ∧ forallb encodes (D item) = true
     ∧ out = buffer ++ flat_map leaf_bytes (D item)) →
  ∀ items buffer out,
    for_each body items buffer = Ok out ↔
    forallb F items = true ∧ forallb encodes (flat_map D items) = true
    ∧ out = buffer ++ flat_map leaf_bytes (flat_map D items).
Proof.
  intros Hbody items. induction items as [|item items IH]; intros buffer out.
  { cbn. rewrite app_nil_r. split; [by intros [= ->]|by intros (_ & _ & ->)]. }
  cbn [for_each forallb flat_map].
  rewrite bind_ok_inv, forallb_app, flat_map_app, !andb_true_iff. split.
  - intros (mid & Hitem & Hrest).
    apply Hbody in Hitem as (HF & HD & ->).
    apply IH in Hrest as (HFs & HDs & ->).
    by rewrite <-app_assoc.
  - intros ((HF & HFs) & (HD & HDs) & ->).
    exists (buffer ++ flat_map leaf_bytes (D item)). split.
    + by apply Hbody.
    + apply IH. by rewrite <-app_assoc.
Qed.

(** The loops emitted for a member succeed exactly when the containers hold
    the declared counts and the leaves counted encode, and they append the
    bytes of exactly those leaves. *)
Lemma run_enc_loop_spec self dims :
  ∀ v buffer out,
    run_enc_loop self (enc_loop_of dims) v buffer = Ok out ↔
    fits self dims v = true ∧ forallb encodes (declared self dims v) = true
    ∧ out = buffer ++ flat_map leaf_bytes (declared self dims v).
Proof.
  induction dims as [|dimension dims IH]; intros v buffer out.
  - cbn [enc_loop_of run_enc_loop fits declared].
    destruct v as [l|items].
    + cbn [forallb flat_map]. unfold encodes, leaf_bytes.
      destruct (leaf_encode l) as [written|e|]; cbn; rewrite ?app_nil_r.
      * split; [by intros [= ->]|by intros (_ & _ & ->)].
      * split; [done|]. by intros (_ & ? & _).
      * split; [done|]. by intros (_ & ? & _).
    + split; [done|]. by intros (? & _).
  - cbn [enc_loop_of]. destruct dimension as [[] sz]; cbn [mode size].
    + rewrite decide_False by done. cbn [run_enc_loop fits declared mode].
      destruct v as [l|items]; [split; [done|by intros (? & _)]|].
      apply for_each_spec, IH.
    + rewrite decide_True by done. cbn [run_enc_loop fits declared mode size].
      destruct v as [l|items]; [split; [done|by intros (? & _)]|].
      destruct (count_of self sz) as [count|e|]; cbn;
        try (split; [done|by intros (? & _)]).
      case_decide as Hcount.
      * split; [done|]. intros (Hfits & _).
        apply andb_true_iff in Hfits as [Hle _].
        apply bool_decide_eq_true in Hle. lia.
      * rewrite (for_each_spec _ (fits self dims) (declared self dims) (IH)).
        rewrite andb_true_iff, bool_decide_eq_true. split; [|tauto].
        intros (? & ? & ?). repeat split; try done; lia.
Qed.

Lemma run_encode_spec self (ms : list lcm_member_t) :
  ∀ buffer out,
    run_encode ((λ member, {| enc_field := membername member;
                              enc_body := enc_loop_of (dimensions member) |}) <$> ms)
               self buffer = Ok out ↔
    forallb (member_fits self) ms = true
    ∧ out = buffer ++ flat_map (member_bytes self) ms.
Proof.
  induction ms as [|member ms IH]; intros buffer out.
  { cbn. rewrite app_nil_r. split; [by intros [= ->]|by intros (_ & ->)]. }
  cbn [fmap list_fmap run_encode forallb flat_map].
  rewrite bind_ok_inv, andb_true_iff.
  unfold run_enc_member, member_fits, member_bytes. cbn [enc_field enc_body].
  destruct (self !! membername member) as [v|].
  - setoid_rewrite run_enc_loop_spec. setoid_rewrite IH.
    rewrite andb_true_iff. split.
    + intros (mid & (? & ? & ->) & ? & ->). by rewrite <-app_assoc.
    + intros (([? ?] & ?) & ->). eexists. split; [done|]. by rewrite <-app_assoc.
  - split; [by intros (? & ? & _)|by intros ([? _] & _)].
Qed.









Lemma NoDup_membername (ms : list lcm_member_t) (m m' : lcm_member_t) :
  NoDup (membername <$> ms) → m ∈ ms → m' ∈ ms →
  membername m' = membername m → m' = m.
Proof.
  induction ms as [|x ms IH]; [by intros _ ?%elem_of_nil|].
  rewrite fmap_cons, NoDup_cons, !elem_of_cons.
  intros [Hx Hms] [->|Hm] [->|Hm'] Hname; [done| | |by apply IH].
  - destruct Hx. rewrite <-Hname. by apply list_elem_of_fmap_2.
  - destruct Hx. rewrite Hname. by apply list_elem_of_fmap_2.
Qed.













End EncodeFacts.

Global Instance sample_leaf_laws : Rust.LeafLaws sample_leaf.
Proof.
  split.
  - by intros [].
  - by intros [] ? [= <-].
  - by intros [] ? ? [= <-].
Qed.





(** ** The emitted decode routine *)

Section DecodeFacts.

Import Rust.

Context {L : Type} `{LeafLaws L}.

Implicit Types (self env : gmap string (value L)) (v item : value L)
  (items : list (value L)) (buffer out rest : list Byte.byte)
  (dims : list lcm_dimension_t).



Lemma count_of_exact self (sz : string) (l : L) items :
  self !! sz = Some (VLeaf l) →
  leaf_int l = Some (Z.of_nat (length items)) →
  Z.of_nat (length items) < 2 ^ 64 →
  count_of self sz = Ok (Z.of_nat (length items)).
Proof.
  intros Hsz Hint Hlen. unfold count_of. rewrite Hsz, Hint. f_equal.
  unfold as_usize. apply Z.mod_small. lia.
Qed.






Lemma is_plain_outermost (dims : list lcm_dimension_t) :
  is_plain (dec_expr_of true dims) = true.
Proof. destruct dims as [|[[] sz] dims]; done. Qed.









End DecodeFacts.



(** Where a constant dimension stands right inside a variable one, the
    closure handed to [collect::<Result<_>>()] has an array for its body, not
    a [Result]: the emitted decode routine is not accepted. *)
Lemma const_inside_var_rejected (previous_const : bool) (sz literal : string)
    (inner : list lcm_dimension_t) :
  Rust.well_typed
    (Rust.dec_expr_of previous_const (var_dim sz :: const_dim literal :: inner)) = false.
Proof. done. Qed.

Example grid_decode_rejected :
  Rust.let_expr <$> Rust.decode_fn_of grid_t =
    [ Rust.DecLeaf true;
      Rust.DecCollect "n" (Rust.DecArray 3 "3" (Rust.DecLeaf true)) true;
      Rust.DecArray 2 "2" (Rust.DecCollect "n" (Rust.DecLeaf false) true) ]
  ∧ Rust.accepted (Rust.decode_fn_of grid_t) = false.
Proof. split; by vm_compute. Qed.

(** struct { int32_t buffer; int32_t x; }: the local [buffer] hides the
    reader that the [let] of [x] borrows; with the members the other way
    round nothing borrows it after the local is bound. *)
Example reader_hidden_rejected :
  Rust.accepted
    (Rust.decode_fn_of
       {| structname := typename_of "" "hidden_t";
          members := [ scalar_member (typename_of "" "int32_t") "buffer";
                       scalar_member (typename_of "" "int32_t") "x" ];
          hash := 0 |}) = false
  ∧ Rust.accepted
      (Rust.decode_fn_of
         {| structname := typename_of "" "hidden_t";
            members := [ scalar_member (typename_of "" "int32_t") "x";
                         scalar_member (typename_of "" "int32_t") "buffer" ];
            hash := 0 |}) = true.
Proof. split; by vm_compute. Qed.

(** struct { byte a[0x2]; }: the field is a [[u8; 0x2]], of two elements,
    and the array written for it has none, sscanf reading 0. *)
Example hex_length_rejected :
  Rust.let_expr
  <$> Rust.decode_fn_of
        {| structname := typename_of "" "hex_t";
           members := [ array_member (typename_of "" "byte") "a" [const_dim "0x2"] ];
           hash := 0 |}
  = [ Rust.DecArray 0 "0x2" (Rust.DecLeaf true) ]
  ∧ Rust.accepted
      (Rust.decode_fn_of
         {| structname := typename_of "" "hex_t";
            members := [ array_member (typename_of "" "byte") "a" [const_dim "0x2"] ];
            hash := 0 |}) = false.
Proof. split; by vm_compute. Qed.

(** struct { byte pair[2][count]; int32_t count; }: the size field of an
    inner dimension declared after the member. *)
Example inner_late_count_rejected :
  Rust.accepted
    (Rust.decode_fn_of
       {| structname := typename_of "" "inner_late_t";
          members := [ array_member (typename_of "" "byte") "pair"
                         [const_dim "2"; var_dim "count"];
                       scalar_member (typename_of "" "int32_t") "count" ];
          hash := 0 |}) = false.
Proof. by vm_compute. Qed.

(** The text emitted for struct late_count_t { byte data[count]; int32_t
    count; }: the range over [count] comes before the [let] of [count]. *)
Example late_count_decode_text :
  EmitRust.emit_impl_message_decode late_count_t "" =
"    fn decode(mut buffer: &mut Read) -> Result<Self> {
        let data = 
            (0..count).map(|_| {
                Message::decode(&mut buffer)
            }).collect::<Result<_>>()?;

        let count = 
            Message::decode(&mut buffer)?;

        Ok(LateCount {
            data: data,
            count: count,
        })
    }

".
Proof. by vm_compute. Qed.

Example grid_size_text :
  EmitRust.emit_impl_message_size grid_t "" =
"    fn size(&self) -> usize {
        0
        + self.n.size()
        + self.rows.iter().flat_map(IntoIterator::into_iter).map(Message::size).sum::<usize>()
        + self.pair.iter().flat_map(IntoIterator::into_iter).map(Message::size).sum::<usize>()
    }
".
Proof. by vm_compute. Qed.



Lemma generations_agree_iff_witness :
  Gen0.make_rust_type_name "foo_bar" =
  EmitRust.make_rust_type_name
    {| lctypename := "foo_bar"; package := ""; shortname := "foo_bar" |}.
Proof.
  apply (proj2 (generations_agree_iff "foo_bar" "" "foo_bar")). by vm_compute.
Defined.

(** ** The emitted size routine *)

Section SizeFacts.

Import Rust.

Context {L : Type} `{LeafLaws L}.

Implicit Types (self : gmap string (value L)) (v item : value L)
  (items : list (value L)) (dims : list lcm_dimension_t).

Lemma sum_sizes_from (ls : list L) :
  ∀ a : Z, 0 ≤ a < 2 ^ 64 →
    foldl (λ acc item, total ← acc; n ← size_of_item item; Ok (usize_add total n))
          (Ok a) (VLeaf <$> ls)
    = Ok ((a + sum_Z (leaf_size <$> ls)) mod 2 ^ 64).
Proof.
  induction ls as [|l ls IH]; intros a Ha.
  { cbn. rewrite Z.add_0_r, Z.mod_small by done. done. }
  cbn [fmap list_fmap foldl]. cbn [mbind outcome_bind size_of_item].
  rewrite IH by (unfold usize_add; apply Z.mod_pos_bound; lia).
  unfold usize_add, sum_Z. cbn [foldr]. rewrite Zplus_mod_idemp_l. f_equal. f_equal. lia.
Qed.

Lemma flatten_items (n : nat) (D : value L → list L) items :
  Forall (λ item, flatten n item = Ok (VLeaf <$> D item)) items →
  foldr (λ item rest, here ← flatten n item; there ← rest; Ok (here ++ there))
        (Ok []) items
  = Ok (VLeaf <$> flat_map D items).
Proof.
  induction 1 as [|item items Hitem _ IH]; [done|].
  cbn [foldr flat_map]. rewrite Hitem, IH. cbn. by rewrite fmap_app.
Qed.

(** With exactly the declared counts in the containers, the iterator chain
    of the size routine goes over the leaves the declaration counts. *)
Lemma flatten_exact self (tn : string) dims :
  ∀ v, has_shape tn dims v = true → exact self dims v = true →
       flatten (length dims) v = Ok (VLeaf <$> declared self dims v).
Proof.
  induction dims as [|dimension dims IH]; intros v Hshape Hexact.
  { by destruct v. }
  destruct v as [l|items]; [done|].
  cbn [has_shape exact length flatten declared] in *.
  apply andb_true_iff in Hshape as [Hshape Hitems].
  apply andb_true_iff in Hshape as [_ Husize].
  apply bool_decide_eq_true in Husize.
  apply andb_true_iff in Hexact as [Hcount Hexacts].
  assert (match mode dimension with
          | LCM_CONST => items
          | LCM_VAR => match count_of self (size dimension) with
                       | Ok count => take (Z.to_nat count) items
                       | _ => []
                       end
          end = items) as ->.
  { destruct (mode dimension); [done|].
    destruct (self !! size dimension) as [[l|]|] eqn:Hsz; [|done..].
    apply bool_decide_eq_true in Hcount.
    rewrite (count_of_exact self _ l items Hsz Hcount Husize).
    by rewrite Nat2Z.id, firstn_all. }
  apply flatten_items. clear -IH Hitems Hexacts.
  induction items as [|item items IHitems]; [done|].
  cbn [forallb] in *.
  apply andb_true_iff in Hitems as [? ?]. apply andb_true_iff in Hexacts as [? ?].
  constructor; auto.
Qed.

Lemma size_of_encoded (ls : list L) :
  forallb encodes ls = true →
  sum_Z (leaf_size <$> ls) = Z.of_nat (length (flat_map leaf_bytes ls)).
Proof.
  induction ls as [|l ls IH]; [done|].
  cbn [forallb fmap list_fmap flat_map]. rewrite andb_true_iff. intros [Hl Hls].
  unfold sum_Z in *. cbn [foldr]. rewrite IH by done.
  unfold encodes in Hl. unfold leaf_bytes at 2.
  destruct (leaf_encode l) as [written|e|] eqn:Henc; [|done..].
  rewrite (leaf_size_encode l written Henc), length_app. lia.
Qed.

Lemma run_size_from self (ms : list lcm_member_t) :
  ∀ a : Z, 0 ≤ a < 2 ^ 64 →
    forallb (λ member,
               match self !! membername member with
               | Some v => has_shape (EmitRust.map_type_name (type member))
                                     (dimensions member) v
               | None => false
               end) ms = true →
    forallb (member_exact self) ms = true →
    forallb (member_fits self) ms = true →
    foldl (λ acc t, total ← acc; n ← run_size_term self t; Ok (usize_add total n))
          (Ok a)
          ((λ member, {| size_field := membername member;
                         size_ndim := length (dimensions member) |}) <$> ms)
    = Ok ((a + Z.of_nat (length (flat_map (member_bytes self) ms))) mod 2 ^ 64).
Proof.
  induction ms as [|member ms IH]; intros a Ha Hshapes Hexacts Hfits.
  { cbn. rewrite Z.add_0_r, Z.mod_small by done. done. }
  cbn [forallb fmap list_fmap foldl flat_map] in *.
  apply andb_true_iff in Hshapes as [Hshape Hshapes].
  apply andb_true_iff in Hexacts as [Hexact Hexacts].
  apply andb_true_iff in Hfits as [Hfit Hfits].
  unfold member_exact, member_fits in Hexact, Hfit.
  cbn [mbind outcome_bind]. unfold run_size_term, member_bytes at 1.
  cbn [size_field size_ndim].
  destruct (self !! membername member) as [v|]; [|done].
  apply andb_true_iff in Hfit as [_ Hencodes].
  rewrite (flatten_exact self _ _ v Hshape Hexact). cbn [mbind outcome_bind].
  unfold sum_sizes. rewrite sum_sizes_from by lia. cbn [mbind outcome_bind].
  rewrite Z.add_0_l, (size_of_encoded _ Hencodes).
  rewrite IH; try done; [|unfold usize_add; apply Z.mod_pos_bound; lia].
  unfold usize_add. rewrite length_app, Zplus_mod_idemp_r, Zplus_mod_idemp_l.
  f_equal. f_equal. lia.
Qed.

(** X22.  Where every container holds exactly the declared count, the
    size routine returns the number of bytes the encode routine writes (a
    number that fits a usize). *)
Lemma size_of_exact_instance (lcm_struct : lcm_struct_t) self (out : list Byte.byte) :
  typed lcm_struct self = true →
  forallb (member_exact self) (members lcm_struct) = true →
  run_encode (encode_fn_of lcm_struct) self [] = Ok out →
  Z.of_nat (length out) < 2 ^ 64 →
  run_size (size_fn_of lcm_struct) self = Ok (Z.of_nat (length out)).
Proof.
  intros Htyped Hexact Henc Hlen.
  apply run_encode_spec in Henc as [Hfits ->]. cbn [app] in *.
  unfold run_size, size_fn_of. rewrite run_size_from; try done.
  - rewrite Z.add_0_l, Z.mod_small; [done|lia].
  - unfold typed in Htyped. revert Htyped. generalize (members lcm_struct).
    intros ms. induction ms as [|member ms IH]; [done|].
    cbn [forallb]. rewrite !andb_true_iff. intros [Hm Hms]. split; [|by apply IH].
    destruct (self !! membername member); [|done].
    by apply andb_true_iff in Hm as [? _].
Qed.

End SizeFacts.

Lemma size_of_exact_instance_witness :
  Rust.run_size (Rust.size_fn_of blob_t) (blob 2 [5; 6]) = Rust.Ok 6.
Proof.
  refine (size_of_exact_instance blob_t (blob 2 [5; 6])
            [Byte.x00; Byte.x00; Byte.x00; Byte.x02; Byte.x05; Byte.x06] _ _ _ _);
    by vm_compute.
Defined.

(** C5 at the failing input: with two elements under a size field of 1 the
    encode routine writes five bytes, and the size routine, which goes over
    the whole container, returns 6. *)
Lemma size_counts_undeclared_elements :
  Rust.typed blob_t (blob 1 [5; 6]) = true
  ∧ Rust.run_encode (Rust.encode_fn_of blob_t) (blob 1 [5; 6]) [] =
    Rust.Ok [Byte.x00; Byte.x00; Byte.x00; Byte.x01; Byte.x05]
  ∧ Rust.run_size (Rust.size_fn_of blob_t) (blob 1 [5; 6]) = Rust.Ok 6.
Proof. repeat split; by vm_compute. Qed.

(** ** The text of the emitted routines

    What [emit_impl_message_encode], [emit_impl_message_decode] and
    [emit_impl_message_size] write is the text of the routines the
    properties above are about. *)

Section Rendering.

Import EmitRust Rust.

Lemma foldl_appends {A : Type} (g : A → string → string) (r : A → string) :
  (∀ x f, g x f = f +:+ r x) →
  ∀ l f, foldl (λ f x, g x f) f l = f +:+ concat_strings (r <$> l).
Proof.
  intros Hg l. induction l as [|x l IH]; intros f.
  { by rewrite append_empty_r. }
  cbn [foldl fmap list_fmap concat_strings]. by rewrite IH, Hg, append_assoc.
Qed.

Lemma emit_encode_loops (dims : list lcm_dimension_t) :
  ∀ (d : nat) (f : string),
    foldl (λ f d, emit (2 + d) "}" f)
          (emit (2 + (d + length dims)) "item.encode(&mut buffer)?;"
                (for_each_from d dims emit_encode_dimension f))
          (rev (seq d (length dims)))
    = f +:+ render_enc_loop d (enc_loop_of dims).
Proof.
  induction dims as [|dimension dims IH]; intros d f.
  { cbn. by rewrite Nat.add_0_r. }
  cbn [length seq rev for_each_from]. rewrite foldl_app. cbn [foldl].
  replace (d + S (length dims))%nat with (S d + length dims)%nat by lia.
  rewrite IH. unfold emit_encode_dimension. cbn [enc_loop_of].
  destruct (decide (mode dimension = LCM_VAR)); cbn [render_enc_loop];
    unfold emit, line; by rewrite !append_assoc.
Qed.

Lemma emit_encode_member_renders (member : lcm_member_t) (f : string) :
  emit_encode_member member f =
  f +:+ render_enc_member {| enc_field := membername member;
                             enc_body := enc_loop_of (dimensions member) |}.
Proof.
  unfold emit_encode_member, for_each_down, render_enc_member. cbn [enc_field enc_body].
  change (2 + length (dimensions member))%nat
    with (2 + (0 + length (dimensions member)))%nat.
  rewrite emit_encode_loops. unfold emit, line. by rewrite !append_assoc.
Qed.

(** The text [emit_impl_message_encode] writes is that of the encode
    routine [encode_fn_of] gives for the struct. *)
Theorem emit_impl_message_encode_renders (lcm_struct : lcm_struct_t) (f : string) :
  emit_impl_message_encode lcm_struct f = f +:+ render_encode_fn (encode_fn_of lcm_struct).
Proof.
  unfold emit_impl_message_encode, render_encode_fn, encode_fn_of.
  rewrite (foldl_appends _ _ emit_encode_member_renders).
  rewrite length_fmap, <-list_fmap_compose.
  unfold emit, line. by rewrite !append_assoc.
Qed.

Lemma repeat_emit_appends (body : string → string) (text : string) :
  (∀ f, body f = f +:+ text) →
  ∀ (n : nat) (f : string), repeat_emit n body f = f +:+ repeat_string n text.
Proof.
  intros Hbody n. induction n as [|n IH]; intros f.
  { by rewrite append_empty_r. }
  cbn [repeat_emit repeat_string]. by rewrite IH, Hbody, append_assoc.
Qed.

Lemma drop_cons_inv {A : Type} (l : list A) (n : nat) (x : A) (rest : list A) :
  drop n l = x :: rest → l !! n = Some x ∧ drop (S n) l = rest.
Proof.
  revert n. induction l as [|y l IH]; intros n Hdrop.
  { by destruct n. }
  destruct n as [|n]; [by injection Hdrop as -> ->|]. by apply IH.
Qed.

Lemma emit_decode_recursive_renders (member : lcm_member_t)
    (rest : list lcm_dimension_t) :
  ∀ (dim : nat) (f : string),
    drop dim (dimensions member) = rest →
    emit_impl_message_decode_recursive member rest dim f =
    f +:+ render_dec_expr dim (dec_expr_of (previous_is_const member dim) rest).
Proof.
  induction rest as [|dimension rest IH]; intros dim f Hdrop.
  { cbn [emit_impl_message_decode_recursive dec_expr_of render_dec_expr].
    unfold emit_end, emit_start, emit_continue.
    destruct (previous_is_const member dim); by rewrite ?append_assoc, ?append_empty_r. }
  apply drop_cons_inv in Hdrop as [Hdim Hdrop].
  assert (previous_is_const member (S dim) = bool_decide (mode dimension = LCM_CONST))
    as Hprev by (cbn; by rewrite Hdim).
  cbn [emit_impl_message_decode_recursive dec_expr_of].
  rewrite !Nat.add_1_r.
  destruct (mode dimension) eqn:Hmode; cbn [render_dec_expr]; rewrite !Nat.add_1_r.
  - rewrite (repeat_emit_appends _
               (render_dec_expr (S dim) (dec_expr_of true rest) +:+ ",")).
    + unfold emit_end, emit_start, emit_continue. by rewrite !append_assoc.
    + intros f'. rewrite (IH (S dim) f' Hdrop), Hprev.
      unfold emit_continue. by rewrite append_assoc.
  - rewrite (IH (S dim) _ Hdrop), Hprev.
    unfold emit_end, emit_start, emit_continue.
    destruct (previous_is_const member dim); by rewrite ?append_assoc, ?append_empty_r.
Qed.

Lemma emit_decode_member_renders (member : lcm_member_t) (f : string) :
  emit_decode_member member f =
  f +:+ render_dec_let {| let_name := membername member;
                          let_type := map_type_name (type member);
                          let_expr := dec_expr_of true (dimensions member) |}.
Proof.
  unfold emit_decode_member, render_dec_let. cbn [let_name let_expr].
  rewrite (emit_decode_recursive_renders member (dimensions member) 0) by done.
  cbn [previous_is_const].
  unfold emit, emit_end, emit_start, line. by rewrite !append_assoc.
Qed.

(** The text [emit_impl_message_decode] writes is that of the decode
    routine [decode_fn_of] gives for the struct. *)
Theorem emit_impl_message_decode_renders (lcm_struct : lcm_struct_t) (f : string) :
  emit_impl_message_decode lcm_struct f =
  f +:+ render_decode_fn (make_rust_type_name (structname lcm_struct))
          (decode_fn_of lcm_struct).
Proof.
  unfold emit_impl_message_decode, render_decode_fn, decode_fn_of, lets_of.
  rewrite (foldl_appends _ _ emit_decode_member_renders).
  rewrite (foldl_appends emit_decode_field
             (λ member, line 3 (membername member +:+ ": " +:+ membername member +:+ ",")))
    by done.
  rewrite length_fmap, <-!list_fmap_compose.
  unfold emit, line. by rewrite !append_assoc.
Qed.

Lemma emit_size_iterators (dims : list lcm_dimension_t) :
  ∀ (d : nat) (f : string),
    for_each_from (S d) dims
      (λ d _ f, if decide (d = 0%nat) then emit_continue ".iter()" f
                else emit_continue ".flat_map(IntoIterator::into_iter)" f) f
    = f +:+ repeat_string (length dims) ".flat_map(IntoIterator::into_iter)".
Proof.
  induction dims as [|dimension dims IH]; intros d f.
  { by rewrite append_empty_r. }
  cbn [for_each_from length repeat_string]. rewrite decide_False by done.
  rewrite IH. unfold emit_continue. by rewrite append_assoc.
Qed.

Lemma emit_size_member_renders (member : lcm_member_t) (f : string) :
  emit_size_member member f =
  f +:+ render_size_term {| size_field := membername member;
                            size_ndim := length (dimensions member) |}.
Proof.
  unfold emit_size_member, render_size_term. cbn [size_field size_ndim].
  destruct (dimensions member) as [|dimension dims]; cbn [length].
  - rewrite decide_False by lia. unfold emit_end, emit_start. by rewrite !append_assoc.
  - rewrite decide_True by lia. cbn [for_each_from]. rewrite decide_True by done.
    rewrite emit_size_iterators.
    unfold emit_end, emit_start, emit_continue. by rewrite !append_assoc.
Qed.

(** The text [emit_impl_message_size] writes is that of the size routine
    [size_fn_of] gives for the struct. *)
Theorem emit_impl_message_size_renders (lcm_struct : lcm_struct_t) (f : string) :
  emit_impl_message_size lcm_struct f = f +:+ render_size_fn (size_fn_of lcm_struct).
Proof.
  unfold emit_impl_message_size, render_size_fn, size_fn_of.
  rewrite (foldl_appends _ _ emit_size_member_renders), <-list_fmap_compose.
  unfold emit, line. by rewrite !append_assoc.
Qed.

End Rendering.

(** ** Names, paths and comments *)

Section PathFacts.

Import EmitRust.

Lemma append_inj_r (a b c : string) : a +:+ c = b +:+ c → a = b.
Proof.
  intros Heq.
  assert (Hlen : String.length a = String.length b).
  { apply (f_equal String.length) in Heq. rewrite !length_append in Heq. lia. }
  revert b Heq Hlen. induction a as [|x a IH]; intros [|y b] Heq Hlen; try done.
  rewrite !append_cons in Heq. injection Heq as -> Heq.
  f_equal. apply IH; [done|]. cbn in Hlen. lia.
Qed.

Lemma append_inj_l (a b c : string) : a +:+ b = a +:+ c → b = c.
Proof.
  induction a as [|x a IH]; [done|].
  rewrite !append_cons. intros Heq. injection Heq as Heq. by apply IH.
Qed.

Lemma strip_underscore_t_append (s : string) :
  strip_underscore_t (s +:+ "_t") = s.
Proof.
  induction s as [|c rest IH]; [done|].
  rewrite append_cons, strip_underscore_t_cons, IH.
  case_bool_decide as Heq; [|done].
  apply (f_equal String.length) in Heq.
  rewrite <-append_cons, length_append in Heq. cbn in Heq. lia.
Qed.

(** X1.  [strip_underscore_t] removes one trailing "_t" and nothing else:
    a name that is given the suffix "_t" is given back as it was, and a
    name comes back unchanged exactly when it does not end in "_t". *)
Theorem strip_underscore_t_one_suffix (s : string) :
  strip_underscore_t (s +:+ "_t") = s ∧
  (strip_underscore_t s = s ↔ ∀ s', s ≠ s' +:+ "_t").
Proof.
  split; [apply strip_underscore_t_append|]. split.
  - intros Hs s' ->. rewrite strip_underscore_t_append in Hs.
    apply (f_equal String.length) in Hs. rewrite length_append in Hs.
    cbn in Hs. lia.
  - intros Hno. destruct (strip_underscore_t_cases s) as [|Hs]; [done|].
    by destruct (Hno _ Hs).
Qed.


Lemma toupper_not_underscore (c : ascii) : c ≠ "_"%char → toupper c ≠ "_"%char.
Proof. destruct c as [[] [] [] [] [] [] [] []]; by vm_compute. Qed.

Lemma tolower_not_underscore (c : ascii) : c ≠ "_"%char → tolower c ≠ "_"%char.
Proof. destruct c as [[] [] [] [] [] [] [] []]; by vm_compute. Qed.

Lemma length_strip_underscore_t (s : string) :
  (String.length (strip_underscore_t s) <= String.length s)%nat.
Proof.
  destruct (strip_underscore_t_cases s) as [->|Hs]; [done|].
  rewrite Hs at 2. rewrite length_append. lia.
Qed.

Lemma convert_to_camel_case_bounds (b : bool) (s : string) :
  Spec.count_char "_" (convert_to_camel_case b s) = 0%nat ∧
  (String.length (convert_to_camel_case b s) + Spec.count_char "_" s
   = String.length s)%nat.
Proof.
  revert b. induction s as [|ch rest IH]; intros b; [done|].
  cbn [convert_to_camel_case Spec.count_char String.length].
  unfold is_underscore. case_bool_decide as Hch.
  - destruct (IH true) as [-> Hlen]. split; [done|]. lia.
  - destruct (IH false) as [Hno Hlen].
    destruct b; cbn [Spec.count_char String.length]; rewrite Hno.
    + rewrite bool_decide_eq_false_2 by by apply toupper_not_underscore.
      split; [done|]. lia.
    + rewrite bool_decide_eq_false_2 by by apply tolower_not_underscore.
      split; [done|]. lia.
Qed.

(** X2.  The Rust type name [make_rust_type_name] builds contains no
    underscore and is no longer than the short name it is built from. *)
Theorem make_rust_type_name_no_underscore (typename : lcm_typename_t) :
  Spec.count_char "_" (make_rust_type_name typename) = 0%nat ∧
  (String.length (make_rust_type_name typename)
   <= String.length (shortname typename))%nat.
Proof.
  unfold make_rust_type_name.
  destruct (convert_to_camel_case_bounds true
              (strip_underscore_t (shortname typename))) as [Hno Hlen].
  split; [done|].
  pose proof (length_strip_underscore_t (shortname typename)). lia.
Qed.

(** X3.  The result of [dots_to_double_colons] contains no '.', has one
    character more than its argument for every '.' in it, and so fits the
    buffer of [2 * strlen(s) + 1] bytes the function allocates. *)
Theorem dots_to_double_colons_fits (s : string) :
  Spec.count_char "." (dots_to_double_colons s) = 0%nat ∧
  String.length (dots_to_double_colons s)
  = (String.length s + Spec.count_char "." s)%nat ∧
  (String.length (dots_to_double_colons s) <= 2 * String.length s)%nat.
Proof.
  induction s as [|t rest (Hno & Hlen & Hle)]; [done|].
  cbn [dots_to_double_colons Spec.count_char String.length].
  case_bool_decide as Ht; cbn [Spec.count_char String.length].
  - rewrite Hno, Hlen. split; [done|split; lia].
  - rewrite bool_decide_eq_false_2 by done.
    rewrite Hno, Hlen. split; [done|split; lia].
Qed.

Lemma dots_to_double_colons_app (a b : string) :
  dots_to_double_colons (a +:+ b) = dots_to_double_colons a +:+ dots_to_double_colons b.
Proof.
  induction a as [|t a IH]; [done|].
  rewrite append_cons. cbn [dots_to_double_colons].
  case_bool_decide; by rewrite ?append_cons, IH.
Qed.

Lemma dots_to_double_colons_id (s : string) :
  Spec.count_char "." s = 0%nat → dots_to_double_colons s = s.
Proof.
  induction s as [|t s IH]; [done|].
  cbn [dots_to_double_colons Spec.count_char].
  case_bool_decide; [done|]. intros Hs. by rewrite IH.
Qed.

(** X4.  A package name made of names joined by '.' becomes the Rust path
    of the same names joined by "::". *)
Theorem dots_to_double_colons_join (names : list string) :
  Forall (λ name, Spec.count_char "." name = 0%nat) names →
  dots_to_double_colons (Spec.join "." names) = Spec.join "::" names.
Proof.
  induction 1 as [|name names Hname Hnames IH]; [done|].
  destruct names as [|name' names].
  { by apply dots_to_double_colons_id. }
  change (Spec.join "." (name :: name' :: names))
    with (name +:+ "." +:+ Spec.join "." (name' :: names)).
  change (Spec.join "::" (name :: name' :: names))
    with (name +:+ "::" +:+ Spec.join "::" (name' :: names)).
  rewrite !dots_to_double_colons_app, IH, dots_to_double_colons_id by done.
  done.
Qed.

Lemma replace_dots_from_app (a b : string) :
  replace_dots_from (String.length a) (a +:+ b) = a +:+ replace_dots_from 0 b.
Proof.
  induction a as [|c a IH]; [done|].
  rewrite append_cons. cbn [String.length replace_dots_from].
  by rewrite IH, append_cons.
Qed.

Lemma replace_dots_from_bounds (s : string) :
  Spec.count_char "." (replace_dots_from 0 s) = 0%nat ∧
  String.length (replace_dots_from 0 s) = String.length s.
Proof.
  induction s as [|c s [Hno Hlen]]; [done|].
  cbn [replace_dots_from Spec.count_char String.length].
  rewrite Hno, Hlen. split; [|done].
  case_bool_decide as Hc; [|done]. by case_bool_decide.
Qed.


Lemma replace_dots_from_0_app (a b : string) :
  replace_dots_from 0 (a +:+ b) = replace_dots_from 0 a +:+ replace_dots_from 0 b.
Proof.
  induction a as [|c a IH]; [done|].
  rewrite append_cons. cbn [replace_dots_from]. by rewrite IH, append_cons.
Qed.

Lemma replace_dots_from_0_id (s : string) :
  Spec.count_char "." s = 0%nat → replace_dots_from 0 s = s.
Proof.
  induction s as [|c s IH]; [done|].
  cbn [replace_dots_from Spec.count_char].
  case_bool_decide; [done|]. intros Hs. by rewrite IH.
Qed.

Lemma replace_dots_from_0_join (names : list string) :
  Forall (λ name, Spec.count_char "." name = 0%nat) names →
  replace_dots_from 0 (Spec.join "." names) = Spec.join "/" names.
Proof.
  induction 1 as [|name names Hname Hnames IH]; [done|].
  destruct names as [|name' names].
  { by apply replace_dots_from_0_id. }
  change (Spec.join "." (name :: name' :: names))
    with (name +:+ "." +:+ Spec.join "." (name' :: names)).
  change (Spec.join "/" (name :: name' :: names))
    with (name +:+ "/" +:+ Spec.join "/" (name' :: names)).
  rewrite !replace_dots_from_0_app, IH, replace_dots_from_0_id by done.
  done.
Qed.

Lemma make_rust_file_path_eq (prefix : string) (lcm_struct : lcm_struct_t) :
  make_rust_file_path prefix lcm_struct =
  prefix +:+ "/" +:+ replace_dots_from 0 (package (structname lcm_struct)).
Proof.
  unfold make_rust_file_path.
  rewrite append_assoc, replace_dots_from_app.
  by rewrite (append_cons "/" ""), append_empty_l.
Qed.

(** X5.  [make_rust_file_path] puts the components of the package under
    the prefix, one directory each, and leaves the prefix as it is, dots
    included (the default prefix is "."). *)
Theorem make_rust_file_path_keeps_prefix (prefix : string) (lcm_struct : lcm_struct_t)
    (names : list string) :
  package (structname lcm_struct) = Spec.join "." names →
  Forall (λ name, Spec.count_char "." name = 0%nat) names →
  make_rust_file_path prefix lcm_struct = prefix +:+ "/" +:+ Spec.join "/" names.
Proof.
  intros Hpackage Hnames.
  by rewrite make_rust_file_path_eq, Hpackage, replace_dots_from_0_join.
Qed.

Lemma make_rust_file_name_eq (prefix : string) (lcm_struct : lcm_struct_t) :
  make_rust_file_name prefix lcm_struct =
  (make_rust_file_path prefix lcm_struct +:+ "/")
  +:+ strip_underscore_t (shortname (structname lcm_struct)) +:+ ".rs".
Proof. unfold make_rust_file_name. by rewrite !append_assoc. Qed.

Lemma make_rust_mod_file_name_eq (prefix : string) (lcm_struct : lcm_struct_t) :
  make_rust_mod_file_name prefix lcm_struct =
  (make_rust_file_path prefix lcm_struct +:+ "/") +:+ "mod" +:+ ".rs".
Proof. unfold make_rust_mod_file_name. by rewrite !append_assoc. Qed.

(** X6.  The file of a struct is the module file of its package exactly
    when the short name of the struct, the suffix "_t" removed, is "mod". *)
Theorem struct_file_is_mod_file_iff (prefix : string) (lcm_struct : lcm_struct_t) :
  make_rust_file_name prefix lcm_struct = make_rust_mod_file_name prefix lcm_struct
  ↔ strip_underscore_t (shortname (structname lcm_struct)) = "mod".
Proof.
  rewrite make_rust_file_name_eq, make_rust_mod_file_name_eq. split.
  - intros Heq. apply append_inj_l in Heq. by apply append_inj_r in Heq.
  - by intros ->.
Qed.

(** X7.  Two structs of one package share the module file, and they are
    written to the same file exactly when their short names are equal once
    the suffix "_t" is removed. *)
Theorem same_file_iff_same_stripped_name (prefix : string) (s1 s2 : lcm_struct_t) :
  package (structname s1) = package (structname s2) →
  make_rust_mod_file_name prefix s1 = make_rust_mod_file_name prefix s2 ∧
  (make_rust_file_name prefix s1 = make_rust_file_name prefix s2
   ↔ strip_underscore_t (shortname (structname s1))
     = strip_underscore_t (shortname (structname s2))).
Proof.
  intros Hpackage.
  assert (Hpath : make_rust_file_path prefix s1 = make_rust_file_path prefix s2).
  { by rewrite !make_rust_file_path_eq, Hpackage. }
  split.
  { unfold make_rust_mod_file_name. by rewrite Hpath. }
  rewrite !make_rust_file_name_eq, Hpath. split.
  - intros Heq. apply append_inj_l in Heq. by apply append_inj_r in Heq.
  - by intros ->.
Qed.

Lemma rustdoc_lines_count (lines : nat) (c : string) :
  rustdoc_lines lines c = (lines + Spec.count_char "010" c)%nat.
Proof.
  revert lines. induction c as [|ch rest IH]; intros lines.
  { cbn. lia. }
  cbn [rustdoc_lines Spec.count_char]. rewrite IH.
  case_bool_decide; lia.
Qed.

Lemma length_rustdoc_copy (c : string) :
  String.length (rustdoc_copy c) = (4 * Spec.count_char "010" c + String.length c)%nat.
Proof.
  induction c as [|ch rest IH]; [done|].
  cbn [rustdoc_copy Spec.count_char String.length].
  case_bool_decide; cbn [String.length].
  - rewrite length_append, IH. cbn [String.length]. lia.
  - rewrite IH. lia.
Qed.

(** X8.  The text [make_rustdoc_comment] builds, with its terminating NUL,
    is exactly as long as the buffer the function allocates:
    [4*lines + strlen(comment) + 1]. *)
Theorem make_rustdoc_comment_fills_buffer (comment : string) :
  (String.length (make_rustdoc_comment comment) + 1
   = 4 * rustdoc_lines 1 comment + String.length comment + 1)%nat.
Proof.
  unfold make_rustdoc_comment.
  rewrite length_append, length_rustdoc_copy, rustdoc_lines_count.
  cbn [String.length]. lia.
Qed.

Lemma split_on_nonempty (sep : ascii) (s : string) :
  ∃ piece pieces, Spec.split_on sep s = piece :: pieces.
Proof.
  induction s as [|ch rest (piece & pieces & IH)]; [by eexists _, _|].
  cbn [Spec.split_on]. rewrite IH. case_bool_decide; by eexists _, _.
Qed.

Lemma split_on_rustdoc_copy (c : string) :
  Spec.split_on "010" (rustdoc_copy c) =
  match Spec.split_on "010" c with
  | piece :: pieces => piece :: ((λ l, "/// " +:+ l) <$> pieces)
  | [] => []
  end.
Proof.
  induction c as [|ch rest IH]; [done|].
  cbn [rustdoc_copy Spec.split_on].
  case_bool_decide as Hch.
  - cbn [Spec.split_on]. rewrite (bool_decide_eq_true_2 _ Hch).
    f_equal. rewrite !append_cons, append_empty_l.
    cbn [Spec.split_on].
    rewrite !(bool_decide_eq_false_2 (_ = "010"%char)) by done.
    rewrite IH. by destruct (split_on_nonempty "010" rest) as (? & ? & ->).
  - cbn [Spec.split_on]. rewrite bool_decide_eq_false_2 by done.
    rewrite IH. by destruct (Spec.split_on "010" rest).
Qed.

(** X9.  The lines of the text [make_rustdoc_comment] builds are the lines
    of the comment, each with "/// " before it. *)
Theorem make_rustdoc_comment_lines (comment : string) :
  Spec.split_on "010" (make_rustdoc_comment comment) =
  (λ l, "/// " +:+ l) <$> Spec.split_on "010" comment.
Proof.
  unfold make_rustdoc_comment.
  rewrite !append_cons, append_empty_l. cbn [Spec.split_on].
  rewrite !(bool_decide_eq_false_2 (_ = "010"%char)) by done.
  rewrite split_on_rustdoc_copy.
  by destruct (split_on_nonempty "010" comment) as (? & ? & ->).
Qed.

Lemma make_dirs_from_parents (dirpath rest : string) (skip : bool) :
  Spec.no_double_slash rest = true →
  (skip = true → ∀ rest', rest ≠ String "/" rest') →
  make_dirs_from dirpath rest skip = Spec.parents_from dirpath rest.
Proof.
  revert dirpath skip. induction rest as [|c rest IH]; intros dirpath skip Hno Hskip.
  { done. }
  assert (Hrest : Spec.no_double_slash rest = true).
  { destruct rest as [|c' rest]; [done|].
    cbn [Spec.no_double_slash] in Hno. by apply andb_prop in Hno as [_ ?]. }
  cbn [make_dirs_from Spec.parents_from].
  destruct skip.
  - rewrite bool_decide_eq_false_2 by (intros ->; by destruct (Hskip eq_refl rest)).
    by apply IH.
  - case_bool_decide as Hc.
    + f_equal. apply IH; [done|]. intros _ rest' ->.
      cbn [Spec.no_double_slash] in Hno. rewrite Hc in Hno. done.
    + by apply IH.
Qed.

(** X10.  For a path without two slashes in a row, [make_dirs_for_file]
    calls [mkdir] once for every '/' of the path, on the part of the path
    before it, the shortest first: every directory after its parent. *)
Theorem make_dirs_for_file_parents (path : string) :
  Spec.no_double_slash path = true →
  make_dirs_for_file path = Spec.parents path.
Proof. intros Hno. by apply make_dirs_from_parents. Qed.

End PathFacts.

Lemma dots_to_double_colons_join_witness :
  EmitRust.dots_to_double_colons "com.foo.nav" = "com::foo::nav".
Proof.
  refine (dots_to_double_colons_join ["com"; "foo"; "nav"] _).
  refine (bool_decide_eq_true_1 (Forall _ _) _). by vm_compute.
Defined.

Lemma make_rust_file_path_keeps_prefix_witness :
  EmitRust.make_rust_file_path ".."
    {| structname := typename_of "com.foo" "pose_t"; members := []; hash := 0 |}
  = "../com/foo".
Proof.
  refine (make_rust_file_path_keeps_prefix ".." _ ["com"; "foo"] _ _).
  - by vm_compute.
  - refine (bool_decide_eq_true_1 (Forall _ _) _). by vm_compute.
Defined.

Lemma same_file_iff_same_stripped_name_witness :
  EmitRust.make_rust_mod_file_name "." (LcmStruct.fields nav_pose_t)
  = EmitRust.make_rust_mod_file_name "." nav_pose
  ∧ (EmitRust.make_rust_file_name "." (LcmStruct.fields nav_pose_t)
     = EmitRust.make_rust_file_name "." nav_pose
     ↔ EmitRust.strip_underscore_t "pose_t" = EmitRust.strip_underscore_t "pose").
Proof.
  refine (same_file_iff_same_stripped_name "." (LcmStruct.fields nav_pose_t) nav_pose _).
  by vm_compute.
Defined.

Lemma make_dirs_for_file_parents_witness :
  EmitRust.make_dirs_for_file "./nav/geo/mod.rs" = [ "."; "./nav"; "./nav/geo" ].
Proof.
  refine (make_dirs_for_file_parents "./nav/geo/mod.rs" _). by vm_compute.
Defined.
Section SeparatorFacts.

Import EmitRust.

Variable G_DIR_SEPARATOR : ascii.

(** X11.  Where the directory separator is not a dot, [dots_to_slashes]
    keeps the length of the name, leaves no '.' in it, and changes nothing
    when it is applied again. *)
Theorem dots_to_slashes_no_dot (s : string) :
  G_DIR_SEPARATOR ≠ "."%char →
  String.length (dots_to_slashes G_DIR_SEPARATOR s) = String.length s
  ∧ Spec.count_char "." (dots_to_slashes G_DIR_SEPARATOR s) = 0%nat
  ∧ dots_to_slashes G_DIR_SEPARATOR (dots_to_slashes G_DIR_SEPARATOR s)
    = dots_to_slashes G_DIR_SEPARATOR s.
Proof.
  intros Hsep. induction s as [|t rest (Hlen & Hno & Hidem)]; [done|].
  cbn [dots_to_slashes String.length Spec.count_char].
  rewrite Hlen, Hno, Hidem. split; [done|].
  destruct (decide (t = "."%char)) as [->|Ht].
  - rewrite (bool_decide_eq_true_2 ("."%char = _)) by done.
    by rewrite !(bool_decide_eq_false_2 (G_DIR_SEPARATOR = _)) by done.
  - by rewrite !(bool_decide_eq_false_2 (t = _)) by done.
Qed.

End SeparatorFacts.

Lemma dots_to_slashes_no_dot_witness :
  String.length (EmitRust.dots_to_slashes "/" "com.foo.pose_t") = 14%nat
  ∧ Spec.count_char "." (EmitRust.dots_to_slashes "/" "com.foo.pose_t") = 0%nat
  ∧ EmitRust.dots_to_slashes "/" (EmitRust.dots_to_slashes "/" "com.foo.pose_t")
    = EmitRust.dots_to_slashes "/" "com.foo.pose_t".
Proof.
  refine (dots_to_slashes_no_dot "/" "com.foo.pose_t" _). by vm_compute.
Defined.
(** ** The struct definition *)

Section StructDefFacts.

Import EmitRust Rust.

Variable lcm_is_primitive_type : string → bool.

Lemma emit_field_type (element : string) (all : list lcm_dimension_t)
    (dims : list lcm_dimension_t) :
  ∀ (before : list lcm_dimension_t) (f : string),
    all = before ++ dims →
    foldl (λ f d, match all !! d with
                  | Some dimension => emit_close_dimension dimension f
                  | None => f
                  end)
          (emit_continue element
             (for_each_from (length before) dims
                (λ _ dimension f, emit_open_dimension dimension f) f))
          (rev (seq (length before) (length dims)))
    = f +:+ Spec.rust_field_type dims element.
Proof.
  induction dims as [|dimension dims IH]; intros before f Hall; [done|].
  cbn [length seq rev for_each_from]. rewrite foldl_app. cbn [foldl].
  assert (Hd : all !! length before = Some dimension).
  { rewrite Hall. by rewrite list_lookup_middle. }
  rewrite Hd.
  specialize (IH (before ++ [dimension]) (emit_open_dimension dimension f)).
  rewrite length_app, Nat.add_1_r in IH. rewrite IH by by rewrite <-app_assoc.
  unfold emit_open_dimension, emit_close_dimension, emit_continue.
  cbn [Spec.rust_field_type].
  destruct (mode dimension); by rewrite !append_assoc.
Qed.

Lemma emit_struct_member_appends (member : lcm_member_t) (f : string) :
  emit_struct_member member f = f +:+ emit_struct_member member "".
Proof.
  unfold emit_struct_member, for_each_down.
  rewrite !(emit_field_type _ (dimensions member) (dimensions member) []) by done.
  unfold emit_end, emit_start, emit.
  destruct (comment member); by rewrite !append_assoc, ?append_empty_l.
Qed.

(** X12.  The line [emit_struct_def] writes for a member: its comment, if
    it has one, and the field with its type, in which the dimensions
    nest the way they are declared, the first one outermost: an array
    [[T; N]] for a constant dimension, a [Vec<T>] for a variable one. *)
Theorem emit_struct_member_type (member : lcm_member_t) (f : string) :
  emit_struct_member member f =
  f +:+ match comment member with
        | Some c => line 1 (make_rustdoc_comment c)
        | None => ""
        end
    +:+ line 1 ("pub " +:+ membername member +:+ ": "
                +:+ Spec.rust_field_type (dimensions member)
                      (map_type_name (type member)) +:+ ",").
Proof.
  unfold emit_struct_member, for_each_down.
  rewrite (emit_field_type _ (dimensions member) (dimensions member) []) by done.
  unfold emit_end, emit_start, emit, line.
  destruct (comment member); by rewrite !append_assoc, ?append_empty_l.
Qed.

Lemma for_each_from_snoc {A : Type} (body : nat → A → string → string)
    (l : list A) (x : A) :
  ∀ (d : nat) (f : string),
    for_each_from d (l ++ [x]) body f = body (d + length l)%nat x (for_each_from d l body f).
Proof.
  induction l as [|y l IH]; intros d f.
  { cbn. by rewrite Nat.add_0_r. }
  cbn [app for_each_from length]. rewrite IH. f_equal. lia.
Qed.

Lemma already_used_spec (lcm_struct : lcm_struct_t) (mind : nat) (lm : lcm_member_t) :
  refers_to_other_struct lcm_is_primitive_type lcm_struct lm = true →
  already_used lcm_is_primitive_type lcm_struct mind lm = true ↔
  ∃ pm, pm ∈ take mind (members lcm_struct)
        ∧ refers_to_other_struct lcm_is_primitive_type lcm_struct pm = true
        ∧ lctypename (type pm) = lctypename (type lm).
Proof.
  intros Hlm. unfold already_used. rewrite existsb_exists.
  unfold refers_to_other_struct in *.
  apply andb_prop in Hlm as [Hprim Hown].
  split.
  - intros (pm & Hin & Hpm). apply andb_prop in Hpm as [Hpprim Heq].
    apply String.eqb_eq in Heq. exists pm.
    split; [by apply list_elem_of_In|]. split; [|done].
    rewrite Heq. by rewrite Hprim, Hown.
  - intros (pm & Hin & Hpm & Heq). exists pm.
    split; [by apply list_elem_of_In|].
    apply andb_prop in Hpm as [Hpprim _]. rewrite Hpprim.
    by apply String.eqb_eq.
Qed.

Lemma concat_strings_app (a b : list string) :
  concat_strings (a ++ b) = concat_strings a +:+ concat_strings b.
Proof.
  induction a as [|x a IH]; [done|].
  cbn [app concat_strings]. by rewrite IH, append_assoc.
Qed.

Lemma first_uses_snoc (t : lcm_typename_t) (types : list lcm_typename_t) :
  ∀ seen,
    Spec.first_uses seen (types ++ [t]) =
    Spec.first_uses seen types
    ++ (if bool_decide (lctypename t ∈ seen ++ (lctypename <$> types)) then [] else [t]).
Proof.
  induction types as [|x types IH]; intros seen.
  { cbn [app Spec.first_uses fmap list_fmap]. rewrite app_nil_r. by case_bool_decide. }
  cbn [app Spec.first_uses fmap list_fmap].
  destruct (decide (lctypename x ∈ seen)) as [Hx|Hx].
  - rewrite (bool_decide_eq_true_2 _ Hx), IH. f_equal.
    rewrite (bool_decide_ext (lctypename t ∈ seen ++ lctypename x :: (lctypename <$> types))
               (lctypename t ∈ seen ++ (lctypename <$> types))); [done|].
    rewrite !elem_of_app, elem_of_cons. split; [|tauto].
    intros [?|[->|?]]; tauto.
  - rewrite (bool_decide_eq_false_2 _ Hx), IH. cbn [app]. f_equal. f_equal.
    rewrite (bool_decide_ext (lctypename t ∈ lctypename x :: seen ++ (lctypename <$> types))
               (lctypename t ∈ seen ++ lctypename x :: (lctypename <$> types))); [done|].
    rewrite !elem_of_cons, !elem_of_app, !elem_of_cons. tauto.
Qed.

Lemma first_uses_elem (types : list lcm_typename_t) (tn : string) :
  ∀ seen,
    tn ∈ lctypename <$> Spec.first_uses seen types ↔
    (tn ∉ seen) ∧ tn ∈ lctypename <$> types.
Proof.
  induction types as [|x types IH]; intros seen.
  { cbn. split; [by intros ?%elem_of_nil|by intros [_ ?%elem_of_nil]]. }
  cbn [Spec.first_uses fmap list_fmap]. case_bool_decide as Hx.
  - rewrite IH, elem_of_cons. split; [tauto|].
    intros [Hseen [->|?]]; [done|tauto].
  - cbn [fmap list_fmap]. rewrite !elem_of_cons, IH, elem_of_cons. split.
    + intros [->|[Hseen ?]]; [tauto|]. split; [|tauto]. intros ?. apply Hseen. by right.
    + intros [Hseen [->|?]]; [by left|].
      destruct (decide (tn = lctypename x)) as [->|Hne]; [by left|].
      right. split; [|done]. by intros [?|?].
Qed.

Lemma first_uses_NoDup (types : list lcm_typename_t) :
  ∀ seen, NoDup (lctypename <$> Spec.first_uses seen types).
Proof.
  induction types as [|x types IH]; intros seen; [constructor|].
  cbn [Spec.first_uses]. case_bool_decide; [apply IH|].
  cbn [fmap list_fmap]. apply NoDup_cons. split; [|apply IH].
  rewrite first_uses_elem. intros [Hseen _]. apply Hseen. by left.
Qed.

Lemma first_uses_sublist (types : list lcm_typename_t) :
  ∀ seen, Spec.first_uses seen types `sublist_of` types.
Proof.
  induction types as [|x types IH]; intros seen; [done|].
  cbn [Spec.first_uses]. case_bool_decide.
  - by apply sublist_cons.
  - by apply sublist_skip.
Qed.

Lemma filter_snoc {A : Type} (P : A → Prop) `{∀ x, Decision (P x)} (l : list A) (x : A) :
  filter P (l ++ [x]) = filter P l ++ (if decide (P x) then [x] else []).
Proof. by rewrite filter_app. Qed.

(** The loop "Include non-primitive types", after its first [n] rounds. *)
Lemma emit_use_prefix (lcm_struct : lcm_struct_t) (f : string) (n : nat) :
  for_each_from 0 (take n (members lcm_struct))
    (emit_use lcm_is_primitive_type lcm_struct) f
  = f +:+ concat_strings
            (Spec.use_line
             <$> Spec.first_uses []
                   (type <$> filter (λ lm, refers_to_other_struct lcm_is_primitive_type
                                             lcm_struct lm = true)
                                    (take n (members lcm_struct)))).
Proof.
  induction n as [|n IH].
  { cbn. by rewrite append_empty_r. }
  destruct (members lcm_struct !! n) as [lm|] eqn:Hlm; last first.
  { apply lookup_ge_None in Hlm. by rewrite take_ge in * by lia. }
  rewrite (take_S_r _ _ _ Hlm), for_each_from_snoc, IH, filter_snoc.
  assert (Hlen : (0 + length (take n (members lcm_struct)))%nat = n).
  { apply lookup_lt_Some in Hlm. rewrite length_take. lia. }
  rewrite Hlen. unfold emit_use.
  destruct (refers_to_other_struct lcm_is_primitive_type lcm_struct lm) eqn:Hrefers.
  - rewrite decide_True by done. rewrite fmap_app. cbn [fmap list_fmap].
    rewrite first_uses_snoc. cbn [app].
    destruct (already_used lcm_is_primitive_type lcm_struct n lm) eqn:Hused.
    + rewrite bool_decide_eq_true_2; [by rewrite app_nil_r|].
      apply (already_used_spec _ _ _ Hrefers) in Hused as (pm & Hin & Hpm & Heq).
      rewrite <-Heq. apply list_elem_of_fmap_2, list_elem_of_fmap_2.
      by apply list_elem_of_filter.
    + rewrite bool_decide_eq_false_2.
      * rewrite fmap_app, concat_strings_app. cbn [fmap list_fmap concat_strings].
        rewrite emit_appends. unfold Spec.use_line, emit, line.
        by rewrite append_empty_r, !append_assoc.
      * intros (t & Heq & (pm & -> & [Hpm Hin]%list_elem_of_filter)%list_elem_of_fmap)
          %list_elem_of_fmap.
        assert (already_used lcm_is_primitive_type lcm_struct n lm = true); [|congruence].
        apply (already_used_spec _ _ _ Hrefers). by exists pm.
  - rewrite decide_False by done. by rewrite app_nil_r.
Qed.

(** X13.  The text [emit_struct_def] writes.  It starts with the [use]
    lines: one for every struct type a member refers to (primitive types
    and the struct's own type left out), once for each type name however
    many members have it, in the order in which the type names first occur
    among the members. *)
Theorem emit_struct_def_uses_once (lcm_struct : LcmStruct.t) (f : string) :
  let ls := LcmStruct.fields lcm_struct in
  let used :=
    Spec.first_uses []
      (type <$> filter (λ lm, refers_to_other_struct lcm_is_primitive_type ls lm = true)
                       (members ls)) in
  emit_struct_def lcm_is_primitive_type lcm_struct f =
    f +:+ concat_strings (Spec.use_line <$> used)
      +:+ line 0 ""
      +:+ match LcmStruct.comment lcm_struct with
          | Some c => line 0 (make_rustdoc_comment c)
          | None => ""
          end
      +:+ line 0 "#[derive(Debug, Default, Clone, PartialEq)]"
      +:+ line 0 ("pub struct " +:+ make_rust_type_name (structname ls) +:+ " {")
      +:+ concat_strings ((λ member, emit_struct_member member "") <$> members ls)
      +:+ line 0 "}"
      +:+ line 0 ""
  ∧ NoDup (lctypename <$> used)
  ∧ used `sublist_of` (type <$> members ls)
  ∧ ∀ tn, tn ∈ lctypename <$> used ↔
          ∃ lm, lm ∈ members ls
                ∧ refers_to_other_struct lcm_is_primitive_type ls lm = true
                ∧ lctypename (type lm) = tn.
Proof.
  intros ls used. split; [|split; [|split]].
  - pose proof (emit_use_prefix ls f (length (members ls))) as Htext.
    rewrite firstn_all in Htext.
    unfold emit_struct_def. fold ls. rewrite Htext. fold used.
    rewrite (foldl_appends _ _ emit_struct_member_appends).
    unfold emit, line.
    destruct (LcmStruct.comment lcm_struct); by rewrite !append_assoc, ?append_empty_l.
  - apply first_uses_NoDup.
  - etrans; [apply first_uses_sublist|].
    apply fmap_sublist, sublist_filter.
  - intros tn. unfold used. rewrite first_uses_elem. split.
    + intros [_ (t & -> & (lm & -> & [Hlm Hin]%list_elem_of_filter)%list_elem_of_fmap)
                %list_elem_of_fmap].
      by exists lm.
    + intros (lm & Hin & Hlm & <-). split; [apply not_elem_of_nil|].
      apply list_elem_of_fmap_2, list_elem_of_fmap_2. by apply list_elem_of_filter.
Qed.

End StructDefFacts.
(** ** The files a run writes *)

Section EmitRustFacts.

Import EmitRust.

Variable lcm_is_primitive_type : string → bool.
Variable lcm_is_legal_const_type : string → bool.
Variable rust_path : string.
Variable emit_cargo_messages : bool.
Variable can_open : string → bool.

Local Abbreviation mod_file s := (make_rust_mod_file_name rust_path (LcmStruct.fields s)).
Local Abbreviation struct_file s := (make_rust_file_name rust_path (LcmStruct.fields s)).
Local Abbreviation mod_files structs :=
  (list_to_set ((λ s, mod_file s) <$> structs) : gset string).

Lemma files_printf (text : string) (w : world) : files (printf text w) = files w.
Proof. done. Qed.

Lemma files_make_dirs (path : string) (w : world) : files (make_dirs path w) = files w.
Proof.
  unfold make_dirs. generalize (make_dirs_for_file path) as dirs. intros dirs.
  revert w. induction dirs as [|d dirs IH]; intros w; [done|].
  cbn [foldl]. by rewrite IH.
Qed.

Lemma files_remove_mod_file (s : LcmStruct.t) (w : world) :
  files (remove_mod_file rust_path emit_cargo_messages s w) = delete (mod_file s) (files w).
Proof.
  unfold remove_mod_file, remove.
  destruct (files w !! mod_file s) eqn:Hfile.
  - by destruct emit_cargo_messages.
  - rewrite delete_id by done. by destruct emit_cargo_messages.
Qed.

Lemma remove_mod_files_rebuilt (structs : list LcmStruct.t) (w : world) :
  Spec.rebuilt ∅ (mod_files structs) (files w)
    (files (foldl (λ w s, remove_mod_file rust_path emit_cargo_messages s w) w structs)).
Proof.
  induction structs as [|s structs IH] using rev_ind; intros path.
  { cbn. rewrite lookup_empty. by rewrite decide_False by apply not_elem_of_empty. }
  rewrite foldl_app. cbn [foldl]. rewrite files_remove_mod_file.
  rewrite lookup_empty. specialize (IH path). rewrite lookup_empty in IH.
  rewrite fmap_app, list_to_set_app_L. cbn [fmap list_fmap list_to_set].
  destruct (decide (path = mod_file s)) as [->|Hne].
  - rewrite lookup_delete_eq. rewrite decide_True; [done|].
    apply elem_of_union. right. apply elem_of_union. left. by apply elem_of_singleton.
  - rewrite lookup_delete_ne by done. rewrite IH.
    destruct (decide (path ∈ mod_files structs)) as [Hin|Hin].
    + rewrite decide_True; [done|]. apply elem_of_union. by left.
    + rewrite decide_False; [done|]. rewrite !elem_of_union, elem_of_singleton.
      intros [?|[?|Hempty]]; [done|done|]. by apply not_elem_of_empty in Hempty.
Qed.

Lemma expose_structs_rebuilt (removed : gset string) (structs : list LcmStruct.t) :
  (∀ s, s ∈ structs → mod_file s ∈ removed) →
  ∀ written, ∃ written' (completed : bool),
    ∀ before w,
      Spec.rebuilt written removed before (files w) →
      (expose_structs rust_path can_open structs w).1 = completed
      ∧ Spec.rebuilt written' removed before
          (files (expose_structs rust_path can_open structs w).2).
Proof.
  induction structs as [|s structs IH]; intros Hremoved written.
  { by exists written, true. }
  cbn [expose_structs]. unfold fopen_a.
  destruct (can_open (mod_file s)) eqn:Hopen; last first.
  { exists written, false. intros before w Hw. split; [done|].
    cbn [snd]. by rewrite files_printf, files_make_dirs. }
  destruct (IH (λ s' Hs', Hremoved s' (list_elem_of_further _ _ _ Hs'))
              (<[mod_file s := emit_pub_use (LcmStruct.fields s)
                                 (default "" (written !! mod_file s))]> written))
    as (written' & completed & Hrest).
  exists written', completed. intros before w Hw.
  apply Hrest. intros path. cbn [fclose files].
  rewrite files_make_dirs.
  destruct (decide (path = mod_file s)) as [->|Hne].
  - rewrite !lookup_insert_eq. rewrite (Hw (mod_file s)).
    destruct (written !! mod_file s); [done|].
    rewrite decide_True; [done|]. apply Hremoved. by left.
  - rewrite !lookup_insert_ne by done. apply Hw.
Qed.


Lemma declare_structs_rebuilt (removed : gset string) (structs : list LcmStruct.t) :
  ∀ written, ∃ written' (result : option bool),
    ∀ before w,
      Spec.rebuilt written removed before (files w) →
      match declare_structs lcm_is_primitive_type lcm_is_legal_const_type rust_path
              emit_cargo_messages can_open structs w, result with
      | Some (completed, w'), Some completed' =>
          completed = completed' ∧ Spec.rebuilt written' removed before (files w')
      | None, None => True
      | _, _ => False
      end.
Proof.
  induction structs as [|s structs IH]; intros written.
  { by exists written, (Some true). }
  cbn [declare_structs]. unfold fopen_w.
  destruct (can_open (struct_file s)) eqn:Hopen; last first.
  { exists written, (Some false). intros before w Hw. split; [done|].
    by rewrite !files_printf. }
  destruct (emit_constants lcm_is_legal_const_type s
              (emit_struct_def lcm_is_primitive_type s (emit_header_start "")))
    as [f|] eqn:Hconstants; cbn [mbind option_bind]; last first.
  { by exists written, None. }
  destruct (IH (<[struct_file s :=
                   emit_impl_message lcm_is_primitive_type (LcmStruct.fields s) f]> written))
    as (written' & result & Hrest).
  exists written', result. intros before w Hw.
  apply Hrest. intros path. cbn [fclose files].
  assert (Hfiles : ∀ w0, files (if emit_cargo_messages
                               then printf ("cargo:rerun-if-changed=" +:+ struct_file s
                                            +:+ newline) w0
                               else w0) = files w0)
    by (intros w0; by destruct emit_cargo_messages).
  rewrite Hfiles, files_printf.
  destruct (decide (path = struct_file s)) as [->|Hne].
  - by rewrite !lookup_insert_eq.
  - rewrite !lookup_insert_ne by done. apply Hw.
Qed.

Lemma emit_rust_rebuilt (structs : list LcmStruct.t) :
  ∃ written (result : option Z),
    ∀ w,
      match emit_rust lcm_is_primitive_type lcm_is_legal_const_type rust_path
              emit_cargo_messages can_open structs w, result with
      | Some (r, w'), Some r' =>
          r = r' ∧ Spec.rebuilt written (mod_files structs) (files w) (files w')
      | None, None => True
      | _, _ => False
      end.
Proof.
  destruct (expose_structs_rebuilt (mod_files structs) structs) with (written := ∅ : gmap string string)
    as (written1 & completed1 & Hexpose).
  { intros s Hs. apply elem_of_list_to_set, list_elem_of_fmap. by exists s. }
  destruct (declare_structs_rebuilt (mod_files structs) structs written1)
    as (written2 & result2 & Hdeclare).
  unfold emit_rust.
  destruct completed1.
  - exists written2, (match result2 with Some true => Some 0 | Some false => Some (-1) | None => None end).
    intros w.
    pose proof (remove_mod_files_rebuilt structs
                  (printf ("rust-path: " +:+ rust_path +:+ newline) w)) as Hremove.
    rewrite files_printf in Hremove.
    destruct (Hexpose _ _ Hremove) as [Hcompleted Hw1].
    destruct (expose_structs _ _ _ _) as [completed w1]. cbn [fst snd] in *. subst completed.
    specialize (Hdeclare _ _ Hw1).
    destruct (declare_structs _ _ _ _ _ _ _) as [[completed w2]|], result2 as [completed'|];
      try done.
    destruct Hdeclare as [-> Hw2]. by destruct completed'.
  - exists written1, (Some (-1)). intros w.
    pose proof (remove_mod_files_rebuilt structs
                  (printf ("rust-path: " +:+ rust_path +:+ newline) w)) as Hremove.
    rewrite files_printf in Hremove.
    destruct (Hexpose _ _ Hremove) as [Hcompleted Hw1].
    destruct (expose_structs _ _ _ _) as [completed w1]. cbn [fst snd] in *. by subst completed.
Qed.

(** X14.  Running the generator again on what a run has left gives the
    same return value and the same files: what a run writes does not
    depend on what the files held before. *)
Theorem emit_rust_twice (structs : list LcmStruct.t) (w w' : world) (r : Z) :
  emit_rust lcm_is_primitive_type lcm_is_legal_const_type rust_path
    emit_cargo_messages can_open structs w = Some (r, w') →
  ∃ w'', emit_rust lcm_is_primitive_type lcm_is_legal_const_type rust_path
           emit_cargo_messages can_open structs w' = Some (r, w'')
         ∧ files w'' = files w'.
Proof.
  intros Hrun.
  destruct (emit_rust_rebuilt structs) as (written & result & Hshape).
  pose proof (Hshape w) as Hfirst. pose proof (Hshape w') as Hsecond.
  rewrite Hrun in Hfirst.
  destruct result as [r'|]; [|done]. destruct Hfirst as [-> Hfirst].
  destruct (emit_rust _ _ _ _ _ _ w') as [[r2 w'']|]; [|done].
  destruct Hsecond as [-> Hsecond].
  exists w''. split; [done|].
  apply map_eq. intros path. rewrite (Hsecond path), (Hfirst path).
  destruct (written !! path); [done|].
  by destruct (decide (path ∈ mod_files structs)).
Qed.


Lemma expose_structs_frame (structs : list LcmStruct.t) (path : string) :
  path ∉ (λ s, mod_file s) <$> structs →
  ∀ w, files (expose_structs rust_path can_open structs w).2 !! path = files w !! path.
Proof.
  induction structs as [|s structs IH]; intros Hpath w; [done|].
  apply not_elem_of_cons in Hpath as [Hne Hpath].
  cbn [expose_structs]. unfold fopen_a.
  destruct (can_open (mod_file s)).
  - rewrite (IH Hpath). cbn [fclose files].
    by rewrite lookup_insert_ne, files_make_dirs.
  - cbn [snd]. by rewrite files_printf, files_make_dirs.
Qed.

Lemma declare_structs_frame (structs : list LcmStruct.t) (path : string) :
  path ∉ (λ s, struct_file s) <$> structs →
  ∀ w completed w',
    declare_structs lcm_is_primitive_type lcm_is_legal_const_type rust_path
      emit_cargo_messages can_open structs w = Some (completed, w') →
    files w' !! path = files w !! path.
Proof.
  induction structs as [|s structs IH]; intros Hpath w completed w' Hrun.
  { by injection Hrun as _ <-. }
  apply not_elem_of_cons in Hpath as [Hne Hpath].
  cbn [declare_structs] in Hrun. unfold fopen_w in Hrun.
  destruct (can_open (struct_file s)).
  - destruct (emit_constants _ _ _) as [f|]; [|done]. cbn [mbind option_bind] in Hrun.
    rewrite (IH Hpath _ _ _ Hrun). cbn [fclose files].
    rewrite lookup_insert_ne by done. by destruct emit_cargo_messages.
  - by injection Hrun as _ <-.
Qed.

Lemma emit_rust_inv (structs : list LcmStruct.t) (w w' : world) (r : Z) :
  emit_rust lcm_is_primitive_type lcm_is_legal_const_type rust_path
    emit_cargo_messages can_open structs w = Some (r, w') →
  let w0 := foldl (λ w s, remove_mod_file rust_path emit_cargo_messages s w)
              (printf ("rust-path: " +:+ rust_path +:+ newline) w) structs in
  let exposed := expose_structs rust_path can_open structs w0 in
  (exposed.1 = false ∧ r = -1 ∧ w' = exposed.2)
  ∨ (exposed.1 = true
     ∧ declare_structs lcm_is_primitive_type lcm_is_legal_const_type rust_path
         emit_cargo_messages can_open structs exposed.2
       = Some (bool_decide (r = 0), w')).
Proof.
  unfold emit_rust. intros Hrun. cbn zeta.
  destruct (expose_structs _ _ _ _) as [[] w1]; cbn [fst snd].
  - right. split; [done|].
    destruct (declare_structs _ _ _ _ _ _ _) as [[[] w2]|]; [| |done];
      by injection Hrun as <- <-.
  - left. by injection Hrun as <- <-.
Qed.

(** X15.  A run changes no file but the module files and the struct
    files of the structs it is given. *)
Theorem emit_rust_touches_only_its_files (structs : list LcmStruct.t) (w w' : world)
    (r : Z) (path : string) :
  emit_rust lcm_is_primitive_type lcm_is_legal_const_type rust_path
    emit_cargo_messages can_open structs w = Some (r, w') →
  path ∉ (λ s, make_rust_mod_file_name rust_path (LcmStruct.fields s)) <$> structs →
  path ∉ (λ s, make_rust_file_name rust_path (LcmStruct.fields s)) <$> structs →
  files w' !! path = files w !! path.
Proof.
  intros Hrun Hmod Hfile.
  pose proof (remove_mod_files_rebuilt structs
                (printf ("rust-path: " +:+ rust_path +:+ newline) w) path) as Hremove.
  rewrite lookup_empty, files_printf in Hremove.
  rewrite decide_False in Hremove by by rewrite elem_of_list_to_set.
  apply emit_rust_inv in Hrun as [(_ & _ & ->)|[_ Hrun]].
  - by rewrite expose_structs_frame.
  - rewrite (declare_structs_frame _ _ Hfile _ _ _ Hrun).
    by rewrite expose_structs_frame.
Qed.


Import Rust.

Local Abbreviation pub_uses structs path :=
  (concat_strings ((λ s, emit_pub_use (LcmStruct.fields s) "")
                   <$> filter (λ s, mod_file s = path) structs)).

Lemma emit_pub_use_appends (s : lcm_struct_t) (f : string) :
  emit_pub_use s f = f +:+ emit_pub_use s "".
Proof. unfold emit_pub_use, emit. by rewrite !append_assoc. Qed.

Lemma filter_none {A : Type} (P : A → Prop) `{∀ x, Decision (P x)} (l : list A) :
  (∀ x, x ∈ l → ¬ P x) → filter P l = [].
Proof.
  induction l as [|x l IH]; intros Hl; [done|].
  rewrite filter_cons. destruct (decide (P x)) as [HP|_].
  - destruct (Hl x); [by left|done].
  - apply IH. intros y Hy. apply Hl. by right.
Qed.

Lemma expose_structs_content (structs : list LcmStruct.t) (path : string) :
  ∀ w w',
    expose_structs rust_path can_open structs w = (true, w') →
    files w' !! path =
    if bool_decide (path ∈ (λ s, mod_file s) <$> structs)
    then Some (default "" (files w !! path) +:+ pub_uses structs path)
    else files w !! path.
Proof.
  induction structs as [|s structs IH]; intros w w' Hrun.
  { injection Hrun as <-. by rewrite bool_decide_eq_false_2 by apply not_elem_of_nil. }
  cbn [expose_structs] in Hrun. unfold fopen_a in Hrun.
  destruct (can_open (mod_file s)); [|done].
  rewrite (IH _ _ Hrun). cbn [fclose files]. rewrite files_make_dirs.
  cbn [fmap list_fmap]. rewrite filter_cons.
  destruct (decide (mod_file s = path)) as [<-|Hne].
  - rewrite lookup_insert_eq. cbn [default fmap list_fmap concat_strings].
    rewrite (bool_decide_eq_true_2 (_ ∈ _ :: _)) by by left.
    rewrite emit_pub_use_appends. unfold id.
    case_bool_decide as Hin; [by rewrite append_assoc|].
    rewrite filter_none; [cbn [fmap list_fmap concat_strings]; by rewrite append_empty_r|].
    intros s' Hs' Heq. apply Hin.
    apply list_elem_of_fmap. by exists s'.
  - rewrite lookup_insert_ne by done.
    case_bool_decide as Hin.
    + rewrite bool_decide_eq_true_2; [done|]. by right.
    + rewrite bool_decide_eq_false_2; [done|].
      intros Hin'. apply elem_of_cons in Hin' as [?|?]; [by subst|done].
Qed.

(** X16.  After a run that returns 0, the module file of a struct holds
    the [pub mod] and [pub use] lines of the structs of its package, in the
    order of the structs, and nothing an earlier run left there; this
    where no struct is written to the path of the module file. *)
Theorem mod_file_lists_its_structs (structs : list LcmStruct.t) (w w' : world)
    (s : LcmStruct.t) :
  emit_rust lcm_is_primitive_type lcm_is_legal_const_type rust_path
    emit_cargo_messages can_open structs w = Some (0, w') →
  s ∈ structs →
  make_rust_mod_file_name rust_path (LcmStruct.fields s)
    ∉ (λ s, make_rust_file_name rust_path (LcmStruct.fields s)) <$> structs →
  files w' !! make_rust_mod_file_name rust_path (LcmStruct.fields s)
  = Some (concat_strings
            ((λ s', emit_pub_use (LcmStruct.fields s') "")
             <$> filter (λ s', make_rust_mod_file_name rust_path (LcmStruct.fields s')
                               = make_rust_mod_file_name rust_path (LcmStruct.fields s))
                        structs)).
Proof.
  intros Hrun Hs Hfile.
  assert (Hin : mod_file s ∈ (λ s, mod_file s) <$> structs).
  { apply list_elem_of_fmap. by exists s. }
  pose proof (remove_mod_files_rebuilt structs
                (printf ("rust-path: " +:+ rust_path +:+ newline) w) (mod_file s)) as Hremove.
  rewrite lookup_empty in Hremove.
  rewrite decide_True in Hremove by by rewrite elem_of_list_to_set.
  apply emit_rust_inv in Hrun as [(_ & ? & _)|[Hexposed Hrun]]; [done|].
  rewrite (declare_structs_frame _ _ Hfile _ _ _ Hrun).
  destruct (expose_structs _ _ _ _) as [completed w1] eqn:Hexpose.
  cbn [fst snd] in *. subst completed.
  rewrite (expose_structs_content _ _ _ _ Hexpose), Hremove.
  by rewrite bool_decide_eq_true_2.
Qed.

Lemma declare_structs_content (structs : list LcmStruct.t) (s : LcmStruct.t) :
  NoDup ((λ s, struct_file s) <$> structs) →
  s ∈ structs →
  ∀ w w',
    declare_structs lcm_is_primitive_type lcm_is_legal_const_type rust_path
      emit_cargo_messages can_open structs w = Some (true, w') →
    ∃ f, emit_constants lcm_is_legal_const_type s
           (emit_struct_def lcm_is_primitive_type s (emit_header_start "")) = Some f
         ∧ files w' !! struct_file s
           = Some (emit_impl_message lcm_is_primitive_type (LcmStruct.fields s) f).
Proof.
  induction structs as [|s0 structs IH]; intros Hnodup Hs w w' Hrun.
  { by apply elem_of_nil in Hs. }
  cbn [fmap list_fmap] in Hnodup. apply NoDup_cons in Hnodup as [Hfresh Hnodup].
  cbn [declare_structs] in Hrun. unfold fopen_w in Hrun.
  destruct (can_open (struct_file s0)); [|done].
  destruct (emit_constants _ s0 _) as [f|] eqn:Hconstants;
    cbn [mbind option_bind] in Hrun; [|done].
  apply elem_of_cons in Hs as [->|Hs]; [|by apply (IH Hnodup Hs _ _ Hrun)].
  exists f. split; [done|].
  rewrite (declare_structs_frame _ _ Hfresh _ _ _ Hrun).
  cbn [fclose files]. by rewrite lookup_insert_eq.
Qed.

(** X17.  After a run that returns 0, where no two structs are written to
    the same path, the file of each struct holds the header, the struct
    definition, the constants and the [Message] implementation of that
    struct, in this order. *)
Theorem struct_file_holds_its_struct (structs : list LcmStruct.t) (w w' : world)
    (s : LcmStruct.t) :
  emit_rust lcm_is_primitive_type lcm_is_legal_const_type rust_path
    emit_cargo_messages can_open structs w = Some (0, w') →
  NoDup ((λ s, make_rust_file_name rust_path (LcmStruct.fields s)) <$> structs) →
  s ∈ structs →
  ∃ f, emit_constants lcm_is_legal_const_type s
         (emit_struct_def lcm_is_primitive_type s (emit_header_start "")) = Some f
       ∧ files w' !! make_rust_file_name rust_path (LcmStruct.fields s)
         = Some (emit_impl_message lcm_is_primitive_type (LcmStruct.fields s) f).
Proof.
  intros Hrun Hnodup Hs.
  apply emit_rust_inv in Hrun as [(_ & ? & _)|[_ Hrun]]; [done|].
  by apply (declare_structs_content _ _ Hnodup Hs _ _ Hrun).
Qed.


Lemma expose_structs_completes (structs : list LcmStruct.t) :
  ∀ w, (expose_structs rust_path can_open structs w).1 = true
       ↔ Forall (λ s, can_open (mod_file s) = true) structs.
Proof.
  induction structs as [|s structs IH]; intros w; [done|].
  cbn [expose_structs]. unfold fopen_a. rewrite Forall_cons.
  destruct (can_open (mod_file s)).
  - rewrite IH. tauto.
  - cbn [fst]. split; [done|]. by intros [? _].
Qed.

Lemma declare_structs_completes (structs : list LcmStruct.t) :
  ∀ w, (∃ w', declare_structs lcm_is_primitive_type lcm_is_legal_const_type rust_path
                emit_cargo_messages can_open structs w = Some (true, w'))
       ↔ Forall (λ s, can_open (struct_file s) = true
                      ∧ is_Some (emit_constants lcm_is_legal_const_type s
                                   (emit_struct_def lcm_is_primitive_type s
                                      (emit_header_start ""))))
                structs.
Proof.
  induction structs as [|s structs IH]; intros w.
  { split; [done|]. intros _. by eexists. }
  cbn [declare_structs]. unfold fopen_w. rewrite Forall_cons.
  destruct (can_open (struct_file s)).
  - destruct (emit_constants _ s _) as [f|]; cbn [mbind option_bind].
    + rewrite IH. split; [by intros ?|by intros [_ ?]].
    + split; [by intros [? ?]|]. intros [[_ [? ?]] _]. done.
  - split; [by intros [? ?]|]. by intros [[? _] _].
Qed.

(** X18.  [emit_rust] returns 0 exactly when every module file and every
    struct file can be opened and the constants of every struct can be
    written. *)
Theorem emit_rust_returns_0_iff (structs : list LcmStruct.t) (w : world) :
  (∃ w', emit_rust lcm_is_primitive_type lcm_is_legal_const_type rust_path
           emit_cargo_messages can_open structs w = Some (0, w'))
  ↔ Forall (λ s, can_open (make_rust_mod_file_name rust_path (LcmStruct.fields s)) = true
                 ∧ can_open (make_rust_file_name rust_path (LcmStruct.fields s)) = true
                 ∧ is_Some (emit_constants lcm_is_legal_const_type s
                              (emit_struct_def lcm_is_primitive_type s
                                 (emit_header_start ""))))
           structs.
Proof.
  unfold emit_rust.
  set (w0 := foldl _ _ structs).
  pose proof (expose_structs_completes structs w0) as Hexpose.
  destruct (expose_structs rust_path can_open structs w0) as [completed w1].
  cbn [fst] in Hexpose.
  pose proof (declare_structs_completes structs w1) as Hdeclare.
  rewrite Forall_and. rewrite <-Hexpose, <-Hdeclare.
  destruct completed.
  - destruct (declare_structs _ _ _ _ _ _ _) as [[[] w2]|].
    + split; [intros _; split; [done|by eexists]|intros _; by eexists].
    + split; [by intros [? ?]|]. by intros [_ [? ?]].
    + split; [by intros [? ?]|]. by intros [_ [? ?]].
  - split; [by intros [? ?]|]. by intros [? _].
Qed.

End EmitRustFacts.

Lemma emit_rust_twice_witness :
  ∃ w', EmitRust.emit_rust Lcmgen.lcm_is_primitive_type (λ _, true) "." false (λ _, true)
          [nav_pose_t; nav_path_t] stale_world = Some (0, w')
        ∧ ∃ w'', EmitRust.emit_rust Lcmgen.lcm_is_primitive_type (λ _, true) "." false
                   (λ _, true) [nav_pose_t; nav_path_t] w' = Some (0, w'')
                 ∧ EmitRust.files w'' = EmitRust.files w'.
Proof.
  eexists. split; [by vm_compute|].
  refine (emit_rust_twice Lcmgen.lcm_is_primitive_type (λ _, true) "." false (λ _, true)
            [nav_pose_t; nav_path_t] stale_world _ 0 _).
  by vm_compute.
Defined.

Lemma emit_rust_touches_only_its_files_witness :
  ∃ w', EmitRust.emit_rust Lcmgen.lcm_is_primitive_type (λ _, true) "." false (λ _, true)
          [nav_pose_t; nav_path_t] stale_world = Some (0, w')
        ∧ EmitRust.files w' !! "./notes.txt" = Some "keep".
Proof.
  eexists. split; [by vm_compute|].
  refine (emit_rust_touches_only_its_files Lcmgen.lcm_is_primitive_type (λ _, true) "."
            false (λ _, true) [nav_pose_t; nav_path_t] stale_world _ 0 "./notes.txt" _ _ _).
  - by vm_compute.
  - refine (bool_decide_eq_true_1 (_ ∉ _) _). by vm_compute.
  - refine (bool_decide_eq_true_1 (_ ∉ _) _). by vm_compute.
Defined.

Lemma mod_file_lists_its_structs_witness :
  ∃ w', EmitRust.emit_rust Lcmgen.lcm_is_primitive_type (λ _, true) "." false (λ _, true)
          [nav_pose_t; nav_path_t] stale_world = Some (0, w')
        ∧ EmitRust.files w' !! "./nav/mod.rs"
          = Some (EmitRust.emit_pub_use (LcmStruct.fields nav_pose_t) ""
                  +:+ EmitRust.emit_pub_use (LcmStruct.fields nav_path_t) "").
Proof.
  eexists. split; [by vm_compute|].
  refine (mod_file_lists_its_structs Lcmgen.lcm_is_primitive_type (λ _, true) "." false
            (λ _, true) [nav_pose_t; nav_path_t] stale_world _ nav_pose_t _ _ _).
  - by vm_compute.
  - refine (bool_decide_eq_true_1 (_ ∈ _) _). by vm_compute.
  - refine (bool_decide_eq_true_1 (_ ∉ _) _). by vm_compute.
Defined.

Lemma struct_file_holds_its_struct_witness :
  ∃ w', EmitRust.emit_rust Lcmgen.lcm_is_primitive_type (λ _, true) "." false (λ _, true)
          [nav_pose_t; nav_path_t] stale_world = Some (0, w')
        ∧ ∃ f, EmitRust.emit_constants (λ _, true) nav_path_t
                 (EmitRust.emit_struct_def Lcmgen.lcm_is_primitive_type nav_path_t
                    (EmitRust.emit_header_start "")) = Some f
               ∧ EmitRust.files w' !! "./nav/path.rs"
                 = Some (EmitRust.emit_impl_message Lcmgen.lcm_is_primitive_type
                           (LcmStruct.fields nav_path_t) f).
Proof.
  eexists. split; [by vm_compute|].
  refine (struct_file_holds_its_struct Lcmgen.lcm_is_primitive_type (λ _, true) "." false
            (λ _, true) [nav_pose_t; nav_path_t] stale_world _ nav_path_t _ _ _).
  - by vm_compute.
  - refine (bool_decide_eq_true_1 (NoDup _) _). by vm_compute.
  - refine (bool_decide_eq_true_1 (_ ∈ _) _). by vm_compute.
Defined.
(** ** The hash function as a whole *)

Section HashFacts.

Import EmitRust.

Lemma fingerprint_expr_value (h : Z) :
  0 ≤ h < 2 ^ 64 → Rust.fingerprint_expr h = Some (Spec.rotate_left_1 h).
Proof.
  intros Hh.
  pose proof (Z.mod_pos_bound h (2 ^ 63) ltac:(lia)) as Hlow.
  assert (0 ≤ Z.b2z (Z.testbit h 63) ≤ 1) as Hbit by (destruct (Z.testbit h 63); simpl; lia).
  unfold Rust.fingerprint_expr, u64_add.
  rewrite u64_shl_1, top_bit_u64, rotate_left_1_sum by done.
  unfold u64_modulus. rewrite decide_True; [done|lia].
Qed.

Lemma eval_hash_fn_value (lcm_is_primitive_type : string → bool)
    (type_hash : string → Z) (lcm_struct : lcm_struct_t) :
  Rust.eval_hash_fn type_hash (Rust.hash_fn_of lcm_is_primitive_type lcm_struct)
  = Some (Spec.rotate_left_1
            (wrap_u64 (hash lcm_struct
                       + sum_Z ((λ lm, type_hash (map_type_name (type lm)))
                                <$> filter (λ lm, refers_to_other_struct
                                                    lcm_is_primitive_type lcm_struct lm = true)
                                           (members lcm_struct))))).
Proof.
  unfold Rust.eval_hash_fn. rewrite composed_hash_of_struct.
  apply fingerprint_expr_value. apply Z.mod_pos_bound. done.
Qed.

Lemma sum_calls_value (call : string → option Z) (type_hash : string → Z) (hf : Rust.hash_fn) :
  (∀ tn, tn ∈ Rust.hash_terms hf → call tn = Some (type_hash tn)) →
  Rust.sum_calls call hf = Some (Rust.composed_hash type_hash hf).
Proof.
  unfold Rust.sum_calls, Rust.composed_hash.
  generalize (Rust.hash_literal hf) as a. induction (Rust.hash_terms hf) as [|tn terms IH];
    intros a Hcalls; [done|].
  cbn [foldl]. rewrite (Hcalls tn) by by left.
  apply IH. intros tn' Hin. apply Hcalls. by right.
Qed.

Lemma sum_calls_stuck (call : string → option Z) (hf : Rust.hash_fn) (tn : string) :
  tn ∈ Rust.hash_terms hf → call tn = None → Rust.sum_calls call hf = None.
Proof.
  unfold Rust.sum_calls. generalize (Some (Rust.hash_literal hf)) as acc.
  assert (Hnone : ∀ terms,
            foldl (λ acc tn, match acc, call tn with
                             | Some a, Some v => Some (wrapping_add a v)
                             | _, _ => None
                             end) None terms = None).
  { induction terms as [|t terms IH]; [done|]. cbn [foldl]. apply IH. }
  induction (Rust.hash_terms hf) as [|t terms IH]; intros acc Hin Hcall.
  { by apply elem_of_nil in Hin. }
  cbn [foldl]. apply elem_of_cons in Hin as [<-|Hin].
  - rewrite Hcall. destruct acc; apply Hnone.
  - by apply IH.
Qed.

Lemma sum_calls_mono (call call' : string → option Z) (hf : Rust.hash_fn) (h : Z) :
  (∀ tn v, call tn = Some v → call' tn = Some v) →
  Rust.sum_calls call hf = Some h → Rust.sum_calls call' hf = Some h.
Proof.
  intros Hcalls. unfold Rust.sum_calls.
  assert (Hnone : ∀ terms,
            foldl (λ acc tn, match acc, call tn with
                             | Some a, Some v => Some (wrapping_add a v)
                             | _, _ => None
                             end) None terms = None).
  { induction terms as [|t terms IH]; [done|]. cbn [foldl]. apply IH. }
  generalize (Rust.hash_literal hf) as a.
  induction (Rust.hash_terms hf) as [|t terms IH]; intros a; [done|].
  cbn [foldl]. destruct (call t) as [v|] eqn:Hcall.
  - rewrite (Hcalls _ _ Hcall). apply IH.
  - by rewrite Hnone.
Qed.

(** More nested calls do not change what a call returns. *)
Lemma run_hash_mono (crate : string → option Rust.hash_fn) (fuel : nat) :
  ∀ fuel' tn v, (fuel ≤ fuel')%nat →
    Rust.run_hash crate fuel tn = Some v → Rust.run_hash crate fuel' tn = Some v.
Proof.
  induction fuel as [|fuel IH]; intros fuel' tn v Hle; [done|].
  destruct fuel' as [|fuel']; [lia|].
  cbn [Rust.run_hash]. destruct (crate tn) as [hf|]; [|done].
  unfold Rust.call_hash_fn.
  destruct (Rust.sum_calls (Rust.run_hash crate fuel) hf) as [h|] eqn:Hsum; [|done].
  rewrite (sum_calls_mono _ (Rust.run_hash crate fuel') _ _ (λ tn v, IH fuel' tn v ltac:(lia)) Hsum).
  done.
Qed.

Lemma calls_return_together (crate : string → option Rust.hash_fn)
    (type_hash : string → Z) (terms : list string) :
  (∀ tn, tn ∈ terms → ∃ fuel, Rust.run_hash crate fuel tn = Some (type_hash tn)) →
  ∃ fuel, ∀ tn, tn ∈ terms → Rust.run_hash crate fuel tn = Some (type_hash tn).
Proof.
  induction terms as [|t terms IH]; intros Hcalls.
  { exists 0%nat. by intros tn ?%elem_of_nil. }
  destruct (Hcalls t ltac:(by left)) as [fuel1 Hfuel1].
  destruct IH as [fuel2 Hfuel2]; [intros tn Hin; apply Hcalls; by right|].
  exists (fuel1 `max` fuel2)%nat. intros tn [->|Hin]%elem_of_cons.
  - apply (run_hash_mono _ fuel1); [lia|done].
  - apply (run_hash_mono _ fuel2); [lia|by apply Hfuel2].
Qed.

(** X19.  The emitted hash function of a struct, run in a crate that has
    this function under the name [own].  Whenever the [hash()] calls of the
    types the struct refers to return, with whatever values, the function
    returns: the sum of the block wraps, the last addition does not
    overflow, and the value is the wrapped sum (the base hash and one term
    for every referring member) rotated left by one bit.  When one of those
    calls does not return, as in a cycle of structs that refer to each
    other, the function does not return either. *)
Theorem emitted_hash_never_overflows (lcm_is_primitive_type : string → bool)
    (crate : string → option Rust.hash_fn) (lcm_struct : lcm_struct_t) (own : string) :
  crate own = Some (Rust.hash_fn_of lcm_is_primitive_type lcm_struct) →
  (∀ type_hash : string → Z,
     (∀ lm, lm ∈ members lcm_struct →
            refers_to_other_struct lcm_is_primitive_type lcm_struct lm = true →
            ∃ fuel, Rust.run_hash crate fuel (map_type_name (type lm))
                    = Some (type_hash (map_type_name (type lm)))) →
     ∃ fuel,
       Rust.run_hash crate fuel own
       = Some (Spec.rotate_left_1
                 (wrap_u64 (hash lcm_struct
                            + sum_Z ((λ lm, type_hash (map_type_name (type lm)))
                                     <$> filter (λ lm, refers_to_other_struct
                                                         lcm_is_primitive_type lcm_struct lm
                                                       = true)
                                                (members lcm_struct))))))
  ∧ (∀ lm, lm ∈ members lcm_struct →
           refers_to_other_struct lcm_is_primitive_type lcm_struct lm = true →
           (∀ fuel, Rust.run_hash crate fuel (map_type_name (type lm)) = None) →
           ∀ fuel, Rust.run_hash crate fuel own = None).
Proof.
  intros Hown. split.
  - intros type_hash Hcalls.
    destruct (calls_return_together crate type_hash
                (Rust.hash_terms (Rust.hash_fn_of lcm_is_primitive_type lcm_struct)))
      as [fuel Hfuel].
    { intros tn (lm & -> & [Hrefers Hin]%list_elem_of_filter)%list_elem_of_fmap.
      by apply Hcalls. }
    exists (S fuel). cbn [Rust.run_hash]. rewrite Hown. unfold Rust.call_hash_fn.
    rewrite (sum_calls_value _ type_hash _ Hfuel).
    apply eval_hash_fn_value.
  - intros lm Hin Hrefers Hcall [|fuel]; [done|].
    cbn [Rust.run_hash]. rewrite Hown. unfold Rust.call_hash_fn.
    rewrite (sum_calls_stuck _ _ (map_type_name (type lm))); [done| |apply Hcall].
    cbn [Rust.hash_fn_of Rust.hash_terms].
    apply (list_elem_of_fmap_2 (λ lm, map_type_name (type lm))).
    by apply list_elem_of_filter.
Qed.

Lemma emitted_hash_never_overflows_witness :
  ∃ fuel,
    Rust.run_hash (Rust.crate_of Lcmgen.lcm_is_primitive_type [node_t; pose_t]) fuel "Node"
    = Some (Spec.rotate_left_1 (wrap_u64 (hash node_t + sum_Z [6]))).
Proof.
  refine (proj1 (emitted_hash_never_overflows Lcmgen.lcm_is_primitive_type
                   (Rust.crate_of Lcmgen.lcm_is_primitive_type [node_t; pose_t])
                   node_t "Node" _) (λ _, 6) _).
  - by vm_compute.
  - intros lm Hin Hrefers. exists 1%nat.
    apply elem_of_cons in Hin as [->|Hin]; [done|].
    apply elem_of_cons in Hin as [->|Hin]; [done|].
    apply elem_of_cons in Hin as [->|Hin]; [by vm_compute|].
    by apply elem_of_nil in Hin.
Defined.

(** Two structs that refer to each other: neither [hash()] returns. *)
Lemma hash_of_a_cycle_never_returns (fuel : nat) :
  Rust.run_hash (Rust.crate_of Lcmgen.lcm_is_primitive_type [ping_t; pong_t]) fuel "Ping" = None
  ∧ Rust.run_hash (Rust.crate_of Lcmgen.lcm_is_primitive_type [ping_t; pong_t]) fuel "Pong" = None.
Proof.
  induction fuel as [|fuel [IHping IHpong]]; [done|].
  split.
  - cbn [Rust.run_hash].
    change (Rust.crate_of Lcmgen.lcm_is_primitive_type [ping_t; pong_t] "Ping")
      with (Some {| Rust.hash_literal := 1; Rust.hash_terms := ["Pong"] |}).
    unfold Rust.call_hash_fn, Rust.sum_calls. cbn [foldl Rust.hash_terms]. by rewrite IHpong.
  - cbn [Rust.run_hash].
    change (Rust.crate_of Lcmgen.lcm_is_primitive_type [ping_t; pong_t] "Pong")
      with (Some {| Rust.hash_literal := 2; Rust.hash_terms := ["Ping"] |}).
    unfold Rust.call_hash_fn, Rust.sum_calls. cbn [foldl Rust.hash_terms]. by rewrite IHping.
Qed.

Lemma hex_digit_value_hex_digit (d : Z) :
  0 ≤ d < 16 → Spec.hex_digit_value (hex_digit d) = Some d.
Proof.
  intros Hd.
  assert (d = 0 ∨ d = 1 ∨ d = 2 ∨ d = 3 ∨ d = 4 ∨ d = 5 ∨ d = 6 ∨ d = 7 ∨ d = 8
          ∨ d = 9 ∨ d = 10 ∨ d = 11 ∨ d = 12 ∨ d = 13 ∨ d = 14 ∨ d = 15) as Hcases by lia.
  repeat destruct Hcases as [->|Hcases]; try done. by subst.
Qed.

Lemma hex_value_from_app (a b : string) :
  ∀ acc, Spec.hex_value_from acc (a +:+ b)
         = Spec.hex_value_from acc a ≫= λ v, Spec.hex_value_from v b.
Proof.
  induction a as [|c a IH]; intros acc; [done|].
  rewrite append_cons. cbn [Spec.hex_value_from].
  destruct (Spec.hex_digit_value c); [|done]. cbn [mbind option_bind]. apply IH.
Qed.

Lemma hex_value_hex_fixed (digits : nat) :
  ∀ z, Spec.hex_value (hex_fixed digits z) = Some (z mod 16 ^ Z.of_nat digits)
       ∧ String.length (hex_fixed digits z) = digits.
Proof.
  unfold Spec.hex_value.
  induction digits as [|digits IH]; intros z.
  { cbn. by rewrite Z.mod_1_r. }
  cbn [hex_fixed]. destruct (IH (z / 16)) as [Hvalue Hlen].
  rewrite hex_value_from_app, Hvalue, length_append, Hlen.
  cbn [mbind option_bind Spec.hex_value_from String.length].
  rewrite hex_digit_value_hex_digit by (apply Z.mod_pos_bound; lia).
  cbn [mbind option_bind]. split; [|lia].
  f_equal. rewrite Nat2Z.inj_succ, Z.pow_succ_r by lia.
  rewrite Z.rem_mul_r by lia. lia.
Qed.

(** X20.  The literal of the base hash has sixteen hexadecimal digits, and
    they denote the 64-bit pattern of the base hash: a negative int64_t is
    written as the u64 it wraps to. *)
Theorem hash_literal_denotes_the_bit_pattern (v : Z) :
  Spec.hex_value (PRIx64_016 v) = Some (wrap_u64 v)
  ∧ String.length (PRIx64_016 v) = 16%nat.
Proof.
  unfold PRIx64_016. destruct (hex_value_hex_fixed 16 (wrap_u64 v)) as [-> ->].
  split; [|done]. f_equal. unfold wrap_u64, u64_modulus.
  change (16 ^ Z.of_nat 16) with (2 ^ 64). apply Z.mod_mod. lia.
Qed.

End HashFacts.
(** ** A member the emitted decode routine does not compile for *)

Section DecodeRejection.

Import Rust.

Context {L : Type} `{Leaf L}.

Lemma accepted_from_ill_typed (fn : list dec_let) (l : dec_let) :
  l ∈ fn → well_typed (let_expr l) = false →
  ∀ bound, accepted_from bound fn = false.
Proof.
  intros Hl Hill. induction fn as [|l' fn IH]; intros bound.
  { by apply elem_of_nil in Hl. }
  cbn [accepted_from]. apply elem_of_cons in Hl as [<-|Hl].
  - rewrite Hill. by rewrite andb_false_r.
  - rewrite (IH Hl). by rewrite andb_false_r.
Qed.

(** X23.  For a struct with a member whose first dimension is variable and
    whose second is constant (T rows[n][3]), the decode routine the
    emitter writes is not accepted: the closure handed to
    [collect::<Result<_>>()] has an array for its body, with the [?] of
    the elements inside it, where a [Result] is needed. *)
Theorem decode_rejected_for_array_in_vec (lcm_struct : lcm_struct_t)
    (member : lcm_member_t) (outer inner : lcm_dimension_t)
    (rest : list lcm_dimension_t) (input : list Byte.byte) :
  member ∈ members lcm_struct →
  dimensions member = outer :: inner :: rest →
  mode outer = LCM_VAR →
  mode inner = LCM_CONST →
  run_decode (decode_fn_of lcm_struct) input = NoRust.
Proof.
  intros Hmember Hdims Houter Hinner.
  unfold run_decode, accepted.
  rewrite (accepted_from_ill_typed _
             {| let_name := membername member;
                let_type := EmitRust.map_type_name (type member);
                let_expr := dec_expr_of true (dimensions member) |}); [done| |].
  - unfold decode_fn_of, lets_of. apply list_elem_of_fmap. by exists member.
  - cbn [let_expr]. rewrite Hdims. cbn [dec_expr_of]. rewrite Houter, Hinner. done.
Qed.

End DecodeRejection.


Lemma decode_rejected_for_array_in_vec_witness :
  Rust.run_decode (L := sample_leaf) (Rust.decode_fn_of grid_t)
    [Byte.x00; Byte.x00; Byte.x00; Byte.x00]
  = Rust.NoRust.
Proof.
  refine (decode_rejected_for_array_in_vec grid_t
            (array_member (typename_of "" "int32_t") "rows" [var_dim "n"; const_dim "3"])
            (var_dim "n") (const_dim "3") [] _ _ _ _ _).
  - refine (bool_decide_eq_true_1 (_ ∈ _) _). by vm_compute.
  - by vm_compute.
  - by vm_compute.
  - by vm_compute.
Defined.
(** ** The struct definition of the first generation *)

Section Gen0Facts.

Import EmitRust Rust.

Variable lcm_is_constant_size_array : lcm_member_t → bool.

Lemma for_each_from_appends {A : Type} (body : nat → A → string → string)
    (text : A → string) :
  (∀ d x f, body d x f = f +:+ text x) →
  ∀ l d f, for_each_from d l body f = f +:+ concat_strings (text <$> l).
Proof.
  intros Hbody l. induction l as [|x l IH]; intros d f.
  { by rewrite append_empty_r. }
  cbn [for_each_from fmap list_fmap concat_strings].
  by rewrite IH, Hbody, append_assoc.
Qed.

Lemma concat_strings_snoc (l : list string) (x : string) :
  concat_strings (l ++ [x]) = concat_strings l +:+ x.
Proof.
  induction l as [|y l IH]; cbn [app concat_strings].
  - by rewrite append_empty_r.
  - by rewrite IH, append_assoc.
Qed.

Lemma generic_array_type_text (element : string) (dims : list lcm_dimension_t) :
  repeat_string (length dims) "GenericArray<" +:+ element
  +:+ concat_strings ((λ ld, ", typenum::U" +:+ size ld +:+ ">") <$> dims)
  = Spec.generic_array_type (rev (size <$> dims)) element.
Proof.
  induction dims as [|ld dims IH] using rev_ind.
  { cbn. by rewrite append_empty_r. }
  rewrite !fmap_app, rev_app_distr, length_app, Nat.add_1_r.
  cbn [fmap list_fmap rev app repeat_string Spec.generic_array_type].
  rewrite <-IH, concat_strings_snoc. by rewrite !append_assoc.
Qed.

(** X24.  The first generation declares a constant-size array as a nest of
    [GenericArray] types, one for each dimension, and attaches the sizes
    in the order of the dimensions from the innermost type outwards: the
    outermost [GenericArray] has the size of the last dimension. *)
Theorem gen0_constant_array_type (lm : lcm_member_t) (f : string) :
  lcm_is_constant_size_array lm = true →
  Gen0.emit_struct_member lcm_is_constant_size_array lm f =
  f +:+ line 1 ("pub " +:+ membername lm +:+ ": "
                +:+ Spec.generic_array_type (rev (size <$> dimensions lm))
                      (Gen0.map_type_name (lctypename (type lm)))
                +:+ ",").
Proof.
  intros Hconst. unfold Gen0.emit_struct_member. rewrite Hconst.
  destruct (decide (length (dimensions lm) = 0%nat)) as [Hnone|_].
  { apply length_zero_iff_nil in Hnone. rewrite Hnone. cbn [fmap list_fmap rev].
    cbn [Spec.generic_array_type].
    unfold emit_end, emit_continue, emit_start, line. by rewrite !append_assoc. }
  rewrite (repeat_emit_appends (emit_continue "GenericArray<") "GenericArray<") by done.
  rewrite (for_each_from_appends _ (λ ld, ", typenum::U" +:+ size ld +:+ ">")) by done.
  rewrite <-generic_array_type_text.
  unfold emit_end, emit_continue, emit_start, line. by rewrite !append_assoc.
Qed.

End Gen0Facts.

Lemma gen0_constant_array_type_witness :
  Gen0.emit_struct_member all_dimensions_const
    (array_member (typename_of "" "int32_t") "cube" [const_dim "2"; const_dim "3"]) ""
  = Rust.line 1 "pub cube: GenericArray<GenericArray<i32, typenum::U2>, typenum::U3>,".
Proof.
  refine (gen0_constant_array_type all_dimensions_const
            (array_member (typename_of "" "int32_t") "cube" [const_dim "2"; const_dim "3"])
            "" _).
  by vm_compute.
Defined.
